(** * chilog: request-id, recover and request-log middleware for chi

    A shallow embedding of [chilog.go] (package [chilog]) together with the
    parts of its dependencies that decide its behaviour:

    - [encoding/json]: the byte scanner behind [json.Valid], [json.Compact]
      and [json.Unmarshal] into a [map[string]interface{}];
    - [net/textproto], [net/http]: header maps and a response writer;
    - [github.com/go-chi/chi/v5/middleware]: the status-observing
      [basicWriter] behind [NewWrapResponseWriter];
    - [github.com/google/uuid], [time], [runtime/debug], [zerolog]: the
      process-wide oracles (entropy, clock, stack trace, log sink).

    Go strings and byte slices are [string] (a sequence of 8-bit [ascii]);
    Go [int]/[int64] are [Z]; the header map is a [gmap].

    What the model leaves out: a handler is the sequence of calls
    ([WriteHeader], [Write], [Flush]) it makes on the response writer and
    the way it ends, decided by the request it is served; it does not
    hijack the connection, and what it does with the logger it finds in
    its context is not part of the log modelled here. The writer is the
    HTTP/1 server's. A log record is what the package hands to zerolog
    (level, bound fields, event fields, message): what the configured
    logger adds when it writes (the [time] of the default logger's
    timestamp hook) and what it filters by level are zerolog's. A panic
    value is never nil; the filter is a pure predicate; [uuid.New] always
    finds its sixteen bytes of entropy; a [float64] latency is the exact
    rational it is rounded from. *)

From Stdlib Require Import ZArith QArith String Ascii List Bool Lia.
From stdpp Require Import base strings pretty gmap.
Import ListNotations.

Local Open Scope Z_scope.
Local Open Scope string_scope.

(** ** Bytes *)

Definition code (c : ascii) : N := N_of_ascii c.

Definition between (lo hi : ascii) (c : ascii) : bool :=
  ((code lo <=? code c) && (code c <=? code hi))%N.

Definition isDigit (c : ascii) : bool := between "0" "9" c.

(** The double quote and the backslash, by their byte values. *)
Definition QUOTE : ascii := "034".
Definition BACKSLASH : ascii := "092".

(** [dq s] is [s] with every apostrophe replaced by a double quote: a way
    to write JSON texts as literals. *)
Fixpoint dq (s : string) : string :=
  match s with
  | EmptyString => EmptyString
  | String c rest => String (if Ascii.eqb c "'" then QUOTE else c) (dq rest)
  end.

(** ** encoding/json: scanner.go *)

Module Json.

(** The values a step function returns ([scanContinue] ... [scanError]). *)
Inductive opcode :=
| scanContinue | scanBeginLiteral | scanBeginObject | scanObjectKey
| scanObjectValue | scanEndObject | scanBeginArray | scanArrayValue
| scanEndArray | scanSkipSpace | scanEnd | scanError.

(** The [iota] value of an opcode; the code compares against
    [scanSkipSpace], "known to be last continue result". *)
Definition opcode_iota (v : opcode) : Z :=
  match v with
  | scanContinue => 0 | scanBeginLiteral => 1 | scanBeginObject => 2
  | scanObjectKey => 3 | scanObjectValue => 4 | scanEndObject => 5
  | scanBeginArray => 6 | scanArrayValue => 7 | scanEndArray => 8
  | scanSkipSpace => 9 | scanEnd => 10 | scanError => 11
  end.

Inductive parseState := parseObjectKey | parseObjectValue | parseArrayValue.

Definition maxNestingDepth : Z := 10000.

(** [scanner.step] is a function value in Go; here the name of the state
    function that handles the next byte. *)
Inductive stepfn :=
| StBeginValueOrEmpty | StBeginValue | StBeginStringOrEmpty | StBeginString
| StEndValue | StEndTop
| StInString | StInStringEsc | StInStringEscU | StInStringEscU1
| StInStringEscU12 | StInStringEscU123
| StNeg | St1 | St0 | StDot | StDot0 | StE | StESign | StE0
| StT | StTr | StTru | StF | StFa | StFal | StFals | StN | StNu | StNul
| StError.

(** A [SyntaxError]: the offending byte and the context of the message
    "invalid character c context", or "unexpected end of JSON input". *)
Inductive SyntaxError :=
| InvalidCharacter (c : ascii) (context : string)
| UnexpectedEnd.

(** The scanner. [stack] is [scanner.parseState] with its last element
    (the innermost container) at the head. *)
Record scanner := mkScanner {
  step : stepfn;
  stack : list parseState;
  err : option SyntaxError;
  endTop : bool
}.

Definition reset : scanner :=
  {| step := StBeginValue; stack := []; err := None; endTop := false |}.

Definition goto (s : scanner) (f : stepfn) : scanner :=
  {| step := f; stack := stack s; err := err s; endTop := endTop s |}.

(** [s.error(c, context)] *)
Definition error (s : scanner) (c : ascii) (context : string) : scanner * opcode :=
  ({| step := StError; stack := stack s;
      err := Some (InvalidCharacter c context); endTop := endTop s |},
   scanError).

(** [s.pushParseState(c, newParseState, successState)], after [s.step] was
    set to [f]. *)
Definition pushParseState (s : scanner) (f : stepfn) (c : ascii)
    (newParseState : parseState) (successState : opcode) : scanner * opcode :=
  let s' := {| step := f; stack := newParseState :: stack s;
               err := err s; endTop := endTop s |} in
  if (Z.of_nat (length (stack s')) <=? maxNestingDepth)%Z then (s', successState)
  else error s' c "exceeded max depth".

(** [s.popParseState()] *)
Definition popParseState (s : scanner) : scanner :=
  match tl (stack s) with
  | [] => {| step := StEndTop; stack := []; err := err s; endTop := true |}
  | rest => {| step := StEndValue; stack := rest; err := err s; endTop := endTop s |}
  end.

(** Replace the innermost parse state ([s.parseState[n-1] = p]). *)
Definition setTop (s : scanner) (p : parseState) : scanner :=
  {| step := step s; stack := p :: tl (stack s); err := err s; endTop := endTop s |}.

Definition isSpace (c : ascii) : bool :=
  (code c <=? code " ")%N &&
  (Ascii.eqb c " " || Ascii.eqb c "009" || Ascii.eqb c "013" || Ascii.eqb c "010").

Definition isHex (c : ascii) : bool :=
  isDigit c || between "a" "f" c || between "A" "F" c.

Definition stateEndTop (s : scanner) (c : ascii) : scanner * opcode :=
  if isSpace c then (s, scanEnd)
  else (fst (error s c "after top-level value"), scanEnd).

Definition stateEndValue (s : scanner) (c : ascii) : scanner * opcode :=
  match stack s with
  | [] =>
      stateEndTop {| step := StEndTop; stack := []; err := err s; endTop := true |} c
  | ps :: _ =>
      if isSpace c then (goto s StEndValue, scanSkipSpace)
      else match ps with
           | parseObjectKey =>
               if Ascii.eqb c ":" then (goto (setTop s parseObjectValue) StBeginValue, scanObjectKey)
               else error s c "after object key"
           | parseObjectValue =>
               if Ascii.eqb c "," then (goto (setTop s parseObjectKey) StBeginString, scanObjectValue)
               else if Ascii.eqb c "}" then (popParseState s, scanEndObject)
               else error s c "after object key:value pair"
           | parseArrayValue =>
               if Ascii.eqb c "," then (goto s StBeginValue, scanArrayValue)
               else if Ascii.eqb c "]" then (popParseState s, scanEndArray)
               else error s c "after array element"
           end
  end.

Definition stateBeginValue (s : scanner) (c : ascii) : scanner * opcode :=
  if isSpace c then (s, scanSkipSpace)
  else if Ascii.eqb c "{" then pushParseState s StBeginStringOrEmpty c parseObjectKey scanBeginObject
  else if Ascii.eqb c "[" then pushParseState s StBeginValueOrEmpty c parseArrayValue scanBeginArray
  else if Ascii.eqb c QUOTE then (goto s StInString, scanBeginLiteral)
  else if Ascii.eqb c "-" then (goto s StNeg, scanBeginLiteral)
  else if Ascii.eqb c "0" then (goto s St0, scanBeginLiteral)
  else if Ascii.eqb c "t" then (goto s StT, scanBeginLiteral)
  else if Ascii.eqb c "f" then (goto s StF, scanBeginLiteral)
  else if Ascii.eqb c "n" then (goto s StN, scanBeginLiteral)
  else if between "1" "9" c then (goto s St1, scanBeginLiteral)
  else error s c "looking for beginning of value".

Definition stateBeginValueOrEmpty (s : scanner) (c : ascii) : scanner * opcode :=
  if isSpace c then (s, scanSkipSpace)
  else if Ascii.eqb c "]" then stateEndValue s c
  else stateBeginValue s c.

Definition stateBeginString (s : scanner) (c : ascii) : scanner * opcode :=
  if isSpace c then (s, scanSkipSpace)
  else if Ascii.eqb c QUOTE then (goto s StInString, scanBeginLiteral)
  else error s c "looking for beginning of object key string".

Definition stateBeginStringOrEmpty (s : scanner) (c : ascii) : scanner * opcode :=
  if isSpace c then (s, scanSkipSpace)
  else if Ascii.eqb c "}" then stateEndValue (setTop s parseObjectValue) c
  else stateBeginString s c.

Definition stateInString (s : scanner) (c : ascii) : scanner * opcode :=
  if Ascii.eqb c QUOTE then (goto s StEndValue, scanContinue)
  else if Ascii.eqb c BACKSLASH then (goto s StInStringEsc, scanContinue)
  else if (code c <? 32)%N then error s c "in string literal"
  else (s, scanContinue).

Definition stateInStringEsc (s : scanner) (c : ascii) : scanner * opcode :=
  if Ascii.eqb c "b" || Ascii.eqb c "f" || Ascii.eqb c "n" || Ascii.eqb c "r"
     || Ascii.eqb c "t" || Ascii.eqb c BACKSLASH || Ascii.eqb c "/" || Ascii.eqb c QUOTE
  then (goto s StInString, scanContinue)
  else if Ascii.eqb c "u" then (goto s StInStringEscU, scanContinue)
  else error s c "in string escape code".

(** [stateInStringEscU], [...U1], [...U12], [...U123]: one hexadecimal
    digit each, then on to [next]. *)
Definition stateInStringEscHex (next : stepfn) (s : scanner) (c : ascii) : scanner * opcode :=
  if isHex c then (goto s next, scanContinue)
  else error s c "in \u hexadecimal character escape".

Definition state0 (s : scanner) (c : ascii) : scanner * opcode :=
  if Ascii.eqb c "." then (goto s StDot, scanContinue)
  else if Ascii.eqb c "e" || Ascii.eqb c "E" then (goto s StE, scanContinue)
  else stateEndValue s c.

Definition state1 (s : scanner) (c : ascii) : scanner * opcode :=
  if isDigit c then (goto s St1, scanContinue) else state0 s c.

Definition stateNeg (s : scanner) (c : ascii) : scanner * opcode :=
  if Ascii.eqb c "0" then (goto s St0, scanContinue)
  else if between "1" "9" c then (goto s St1, scanContinue)
  else error s c "in numeric literal".

Definition stateDot (s : scanner) (c : ascii) : scanner * opcode :=
  if isDigit c then (goto s StDot0, scanContinue)
  else error s c "after decimal point in numeric literal".

Definition stateDot0 (s : scanner) (c : ascii) : scanner * opcode :=
  if isDigit c then (s, scanContinue)
  else if Ascii.eqb c "e" || Ascii.eqb c "E" then (goto s StE, scanContinue)
  else stateEndValue s c.

Definition stateESign (s : scanner) (c : ascii) : scanner * opcode :=
  if isDigit c then (goto s StE0, scanContinue)
  else error s c "in exponent of numeric literal".

Definition stateE (s : scanner) (c : ascii) : scanner * opcode :=
  if Ascii.eqb c "+" || Ascii.eqb c "-" then (goto s StESign, scanContinue)
  else stateESign s c.

Definition stateE0 (s : scanner) (c : ascii) : scanner * opcode :=
  if isDigit c then (s, scanContinue) else stateEndValue s c.

(** [stateT] ... [stateNul]: the next byte of [true], [false] or [null]. *)
Definition stateLit (want : ascii) (next : stepfn) (context : string)
    (s : scanner) (c : ascii) : scanner * opcode :=
  if Ascii.eqb c want then (goto s next, scanContinue) else error s c context.

(** [s.step(s, c)] *)
Definition scan (s : scanner) (c : ascii) : scanner * opcode :=
  match step s with
  | StBeginValueOrEmpty => stateBeginValueOrEmpty s c
  | StBeginValue => stateBeginValue s c
  | StBeginStringOrEmpty => stateBeginStringOrEmpty s c
  | StBeginString => stateBeginString s c
  | StEndValue => stateEndValue s c
  | StEndTop => stateEndTop s c
  | StInString => stateInString s c
  | StInStringEsc => stateInStringEsc s c
  | StInStringEscU => stateInStringEscHex StInStringEscU1 s c
  | StInStringEscU1 => stateInStringEscHex StInStringEscU12 s c
  | StInStringEscU12 => stateInStringEscHex StInStringEscU123 s c
  | StInStringEscU123 => stateInStringEscHex StInString s c
  | StNeg => stateNeg s c
  | St1 => state1 s c
  | St0 => state0 s c
  | StDot => stateDot s c
  | StDot0 => stateDot0 s c
  | StE => stateE s c
  | StESign => stateESign s c
  | StE0 => stateE0 s c
  | StT => stateLit "r" StTr "in literal true (expecting 'r')" s c
  | StTr => stateLit "u" StTru "in literal true (expecting 'u')" s c
  | StTru => stateLit "e" StEndValue "in literal true (expecting 'e')" s c
  | StF => stateLit "a" StFa "in literal false (expecting 'a')" s c
  | StFa => stateLit "l" StFal "in literal false (expecting 'l')" s c
  | StFal => stateLit "s" StFals "in literal false (expecting 's')" s c
  | StFals => stateLit "e" StEndValue "in literal false (expecting 'e')" s c
  | StN => stateLit "u" StNu "in literal null (expecting 'u')" s c
  | StNu => stateLit "l" StNul "in literal null (expecting 'l')" s c
  | StNul => stateLit "l" StEndValue "in literal null (expecting 'l')" s c
  | StError => (s, scanError)
  end.

(** [s.eof()]: the scanner state it leaves and the opcode it returns. *)
Definition eof (s : scanner) : scanner * opcode :=
  match err s with
  | Some _ => (s, scanError)
  | None =>
      if endTop s then (s, scanEnd)
      else
        let s1 := fst (scan s " ") in
        if endTop s1 then (s1, scanEnd)
        else match err s1 with
             | None => ({| step := step s1; stack := stack s1;
                           err := Some UnexpectedEnd; endTop := endTop s1 |}, scanError)
             | Some _ => (s1, scanError)
             end
  end.

(** [checkValid(data, scan)], from the scanner state [s]: [None] is Go's
    [nil] error. *)
Fixpoint checkValid_from (s : scanner) (data : string) : option SyntaxError :=
  match data with
  | EmptyString => let (s', v) := eof s in
                   match v with scanError => err s' | _ => None end
  | String c rest =>
      let (s', v) := scan s c in
      match v with
      | scanError => err s'
      | _ => checkValid_from s' rest
      end
  end.

Definition checkValid (data : string) : option SyntaxError :=
  checkValid_from reset data.

(** [json.Valid] *)
Definition Valid (data : string) : bool :=
  match checkValid data with None => true | Some _ => false end.

(** [compact(dst, src, false)]: the loop. A byte is dropped when its opcode
    is at least [scanSkipSpace]; [scanError] breaks out, leaving the bytes
    from the last kept position to the end of [src] pending. Returns the
    scanner and what [dst] holds if the final [eof] succeeds. *)
Fixpoint compact_loop (s : scanner) (src : string) : scanner * string :=
  match src with
  | EmptyString => (s, EmptyString)
  | String c rest =>
      let (s', v) := scan s c in
      if (opcode_iota scanSkipSpace <=? opcode_iota v)%Z then
        match v with
        | scanError => (s', String c rest)
        | _ => compact_loop s' rest
        end
      else
        let (sf, out) := compact_loop s' rest in (sf, String c out)
  end.

(** [json.Compact(dst, src)] on an empty [dst]: the buffer's content and
    the error returned ([dst.Truncate(origLen)] on error). *)
Definition Compact (src : string) : string * option SyntaxError :=
  let (s, out) := compact_loop reset src in
  let (s', v) := eof s in
  match v with
  | scanError => (EmptyString, err s')
  | _ => (out, None)
  end.

(** *** decode.go, for a destination of type pointer to [map[string]interface{}] *)

(** The literal tokens of [data] in order: a token starts at the byte for
    which the scanner returns [scanBeginLiteral] and extends while it
    returns [scanContinue] ([rescanLiteral]). [cur] is the token being
    read, reversed. *)
Fixpoint literals_from (s : scanner) (cur : option string) (data : string) : list string :=
  let close := match cur with Some t => [t] | None => [] end in
  match data with
  | EmptyString => close
  | String c rest =>
      let (s', v) := scan s c in
      match v with
      | scanBeginLiteral => close ++ literals_from s' (Some (String c EmptyString)) rest
      | scanContinue =>
          literals_from s' (option_map (fun t => t ++ String c EmptyString) cur) rest
      | scanError => close
      | _ => close ++ literals_from s' None rest
      end
  end.

Definition literals (data : string) : list string := literals_from reset None data.

Fixpoint digits_value (acc : Z) (s : string) : Z * string :=
  match s with
  | String c rest =>
      if isDigit c then digits_value (10 * acc + Z.of_N (code c - code "0")) rest
      else (acc, s)
  | EmptyString => (acc, s)
  end.

Fixpoint digits_count (s : string) : Z :=
  match s with
  | String c rest => if isDigit c then 1 + digits_count rest else 0
  | EmptyString => 0
  end.

(** The largest finite [float64] is [2^1024 - 2^971]; a decimal rounds to
    infinity from [2^1024 - 2^970] on (the midpoint, a tie that rounds to
    the even mantissa above). *)
Definition float64_overflow_threshold : Z := 2 ^ 1024 - 2 ^ 970.

(** [strconv.ParseFloat(s, 64)] returns [ErrRange] exactly when the decimal
    [s] (a JSON number: sign, digits, fraction, exponent) rounds to an
    infinity. The magnitude is [mant * 10 ^ (exp - fraction digits)]. *)
Definition ParseFloat_ErrRange (s : string) : bool :=
  let s := match s with String "-"%char r => r | _ => s end in
  let (ip, s1) := digits_value 0 s in
  let '(mant, nfrac, s2) :=
    match s1 with
    | String "."%char r => let (m, r') := digits_value ip r in (m, digits_count r, r')
    | _ => (ip, 0, s1)
    end in
  let ex :=
    match s2 with
    | String _ (String "-"%char r) => - fst (digits_value 0 r)
    | String _ (String "+"%char r) => fst (digits_value 0 r)
    | String _ r => fst (digits_value 0 r)
    | EmptyString => 0
    end in
  let e10 := ex - nfrac in
  if (0 <=? e10)%Z then (float64_overflow_threshold <=? mant * 10 ^ e10)%Z
  else (float64_overflow_threshold * 10 ^ (- e10) <=? mant)%Z.

Definition isNumberLiteral (t : string) : bool :=
  match t with
  | String c _ => Ascii.eqb c "-" || isDigit c
  | EmptyString => false
  end.

(** An error of [json.Unmarshal]: a [SyntaxError], or an
    [UnmarshalTypeError] with its [Value] field. *)
Inductive UnmarshalError :=
| ESyntax (e : SyntaxError)
| EType (value : string).

(** The first byte of the top-level value ([scanWhile(scanSkipSpace)]). *)
Fixpoint firstByte (data : string) : option ascii :=
  match data with
  | EmptyString => None
  | String c rest => if isSpace c then firstByte rest else Some c
  end.

(** [json.Unmarshal(data, &js)] with [js] a [map[string]interface{}]: the
    error returned, [None] for [nil]. [checkValid] comes first; then
    [d.value]: an array, string, boolean or number cannot be stored in a
    map ([saveError] of an [UnmarshalTypeError]); [null] is stored as the
    nil map; an object is decoded member by member into [interface{}]
    values, where a number is stored as a [float64] ([convertNumber]) and
    the first number out of range is the saved error. *)
Definition Unmarshal_map (data : string) : option UnmarshalError :=
  match checkValid data with
  | Some e => Some (ESyntax e)
  | None =>
      match firstByte data with
      | Some "{"%char =>
          match List.filter (fun t => isNumberLiteral t && ParseFloat_ErrRange t)
                            (literals data) with
          | t :: _ => Some (EType ("number " ++ t))
          | [] => None
          end
      | Some "n"%char => None
      | Some "["%char => Some (EType "array")
      | Some "t"%char | Some "f"%char => Some (EType "bool")
      | Some c => if Ascii.eqb c QUOTE then Some (EType "string") else Some (EType "number")
      | None => Some (ESyntax UnexpectedEnd)
      end
  end.

(** *** The text of a [SyntaxError] *)

(** [strconv.IsPrint] on a rune up to U+00FF. *)
Definition IsPrint (c : ascii) : bool :=
  ((32 <=? code c) && (code c <? 127)
   || (161 <=? code c) && negb (code c =? 173))%N.

(** [utf8.EncodeRune] on a rune up to U+00FF: one byte below U+0080, two
    bytes from there. *)
Definition EncodeRune (c : ascii) : string :=
  if (code c <? 128)%N then String c EmptyString
  else String (ascii_of_N (N.lor 192 (N.shiftr (code c) 6)))
         (String (ascii_of_N (N.lor 128 (N.land (code c) 63))) EmptyString).

(** [lowerhex[n]] *)
Definition lowerhex (n : N) : ascii :=
  nth (N.to_nat n) (list_ascii_of_string "0123456789abcdef") "0"%char.

(** [strconv.Quote(string(c))] without the quotes around it
    ([appendEscapedRune]); [string(c)] is the rune of value [c]. *)
Definition escapedRune (c : ascii) : string :=
  if Ascii.eqb c QUOTE || Ascii.eqb c BACKSLASH then String BACKSLASH (String c EmptyString)
  else if IsPrint c then EncodeRune c
  else if (code c =? 7)%N then "\a"
  else if (code c =? 8)%N then "\b"
  else if (code c =? 12)%N then "\f"
  else if (code c =? 10)%N then "\n"
  else if (code c =? 13)%N then "\r"
  else if (code c =? 9)%N then "\t"
  else if (code c =? 11)%N then "\v"
  else if ((code c <? 32) || (code c =? 127))%N then
    "\x" ++ String (lowerhex (N.shiftr (code c) 4))
              (String (lowerhex (N.land (code c) 15)) EmptyString)
  else
    "\u00" ++ String (lowerhex (N.shiftr (code c) 4))
                (String (lowerhex (N.land (code c) 15)) EmptyString).

(** [quoteChar(c)] *)
Definition quoteChar (c : ascii) : string :=
  if Ascii.eqb c "'" then "'\''"
  else if Ascii.eqb c QUOTE then String "'" (String QUOTE "'")
  else "'" ++ escapedRune c ++ "'".

(** [(e *SyntaxError) Error()] *)
Definition SyntaxError_Error (e : SyntaxError) : string :=
  match e with
  | InvalidCharacter c context => "invalid character " ++ quoteChar c ++ " " ++ context
  | UnexpectedEnd => "unexpected end of JSON input"
  end.

End Json.

(** ** Go values *)

(** Go [error] values. [ErrAbortHandler] is the sentinel
    [http.ErrAbortHandler], compared by identity: an [ErrorString] with the
    same text is a different value. *)
Inductive error :=
| ErrAbortHandler
| ErrorString (msg : string)
| SyntaxError (e : Json.SyntaxError).

(** [err.Error()]: the text of an error. *)
Definition error_Error (e : error) : string :=
  match e with
  | ErrAbortHandler => "net/http: abort Handler"
  | ErrorString msg => msg
  | SyntaxError e => Json.SyntaxError_Error e
  end.

(** A non-nil [interface{}] value, as passed to [panic]. *)
Inductive any :=
| AnyError (e : error)
| AnyString (s : string)
| AnyInt (n : Z).

(** How a call ends: it returns, or a panic unwinds through it. *)
Inductive Exit :=
| Return
| Panic (v : any).

(** ** net/textproto, net/http: headers *)

(** [validHeaderFieldByte]: the token characters of RFC 7230. *)
Definition validHeaderFieldByte (c : ascii) : bool :=
  isDigit c || between "a" "z" c || between "A" "Z" c
  || existsb (Ascii.eqb c) (list_ascii_of_string "!#$%&'*+-.^_`|~").

Definition toUpper (c : ascii) : ascii :=
  if between "a" "z" c then ascii_of_N (code c - 32) else c.

Definition toLower (c : ascii) : ascii :=
  if between "A" "Z" c then ascii_of_N (code c + 32) else c.

Fixpoint forallb_string (f : ascii -> bool) (s : string) : bool :=
  match s with
  | EmptyString => true
  | String c rest => f c && forallb_string f rest
  end.

(** The second loop of [canonicalMIMEHeaderKey]: upper case first and
    after each dash, lower case elsewhere. *)
Fixpoint canonicalize (upper : bool) (s : string) : string :=
  match s with
  | EmptyString => EmptyString
  | String c rest =>
      let c' := if upper then toUpper c else toLower c in
      String c' (canonicalize (Ascii.eqb c' "-") rest)
  end.

(** [textproto.CanonicalMIMEHeaderKey]: a key with a byte outside the
    token characters is returned unchanged. *)
Definition CanonicalMIMEHeaderKey (s : string) : string :=
  if forallb_string validHeaderFieldByte s then canonicalize true s else s.

(** [http.Header]: [map[string][]string]. *)
Abbreviation Header := (gmap string (list string)).

(** [h.Get(key)]: the first value under the canonical key, or the empty string. *)
Definition Header_Get (h : Header) (key : string) : string :=
  match h !! CanonicalMIMEHeaderKey key with
  | Some (v :: _) => v
  | _ => EmptyString
  end.

(** [h.Set(key, value)] *)
Definition Header_Set (h : Header) (key value : string) : Header :=
  <[CanonicalMIMEHeaderKey key := [value]]> h.

(** ** zerolog *)

Inductive Level := InfoLevel | WarnLevel | ErrorLevel.

(** The value of a field, as the event writes it. *)
Inductive FieldValue :=
| VStr (s : string)
| VInt (n : Z)
| VFloat (q : Q)
| VBytes (b : string).

Definition Field : Type := string * FieldValue.

(** [e.Err(err)] for a non-nil [err]: the field [error], a string holding
    the text of the error. *)
Definition Err (err : error) : Field := ("error", VStr (error_Error err)).

(** A [zerolog.Logger]: the fields bound with [With()]. *)
Record Logger := { bound : list Field }.

(** One record handed to the log: the fields are the logger's bound
    fields followed by the event's. *)
Record LogRecord := {
  level : Level;
  fields : list Field;
  message : string
}.

(** [context.Context] as far as this package uses it: the logger stored by
    [Logger.WithContext]. *)
Record Context := { ctx_logger : option Logger }.

(** The global [log.Logger] as the package [zerolog/log] sets it up:
    nothing bound. *)
Definition globalLogger : Logger := {| bound := [] |}.

(** [log.Ctx(ctx)] *)
Definition log_Ctx (ctx : Context) : Logger :=
  match ctx_logger ctx with Some l => l | None => globalLogger end.

(** [l.<Level>().<fields...>.Msg(msg)]: the record that is written. *)
Definition emit (l : Logger) (lv : Level) (evt : list Field) (msg : string) : LogRecord :=
  {| level := lv; fields := bound l ++ evt; message := msg |}.

(** The first value of field [k]. *)
Fixpoint field (k : string) (fs : list Field) : option FieldValue :=
  match fs with
  | [] => None
  | (k', v) :: rest => if String.eqb k k' then Some v else field k rest
  end.

(** ** io, net/http: requests and response writers *)

(** An [io.ReadCloser]: [content] is what it still has to yield,
    [read_err] the error it ends with instead of [io.EOF], if any. *)
Record Reader := {
  content : string;
  read_err : option error
}.

(** [io.ReadAll(b)]: what was read and the error, and the reader
    afterwards, which has nothing left to yield. *)
Definition ReadAll (b : Reader) : (string * option error) * Reader :=
  ((content b, read_err b), {| content := EmptyString; read_err := read_err b |}).

(** [io.NopCloser(bytes.NewBuffer(buf))] *)
Definition NopCloser_NewBuffer (buf : string) : Reader :=
  {| content := buf; read_err := None |}.

Module http.

(** [http.Request], as far as this package reads or writes it; [URL_Path]
    is [r.URL.Path], [Ctx] is [r.Context()]. *)
Record Request := {
  Method : string;
  Host : string;
  RemoteAddr : string;
  URL_Path : string;
  ProtoMajor : Z;
  Header : gmap string (list string);
  Body : option Reader;
  Ctx : Context
}.

(** [r.Header = h] (the header map is updated in place). *)
Definition set_Header (r : Request) (h : gmap string (list string)) : Request :=
  {| Method := Method r; Host := Host r; RemoteAddr := RemoteAddr r;
     URL_Path := URL_Path r; ProtoMajor := ProtoMajor r; Header := h;
     Body := Body r; Ctx := Ctx r |}.

(** [r.Body = b] *)
Definition set_Body (r : Request) (b : option Reader) : Request :=
  {| Method := Method r; Host := Host r; RemoteAddr := RemoteAddr r;
     URL_Path := URL_Path r; ProtoMajor := ProtoMajor r; Header := Header r;
     Body := b; Ctx := Ctx r |}.

(** [r.WithContext(ctx)]: a shallow copy, sharing header and body. *)
Definition WithContext (r : Request) (ctx : Context) : Request :=
  {| Method := Method r; Host := Host r; RemoteAddr := RemoteAddr r;
     URL_Path := URL_Path r; ProtoMajor := ProtoMajor r; Header := Header r;
     Body := Body r; Ctx := ctx |}.

End http.

(** The interfaces [http.ResponseWriter] and [http.Flusher], as far as a
    handler's status and body go. A method returns the new state of the
    writer and the value it panicked with, if it did. *)
Class ResponseWriter (W : Type) := {
  WriteHeader : Z -> W -> W * option any;
  Write : string -> W -> W * option any;
  Flush : W -> W * option any
}.

(** The server's response (HTTP/1): [wroteHeader] and [status] are the
    final status line, sent once; [informational] are the 1xx status
    lines sent before it; [written] are the body bytes the handler has
    passed to [Write]. *)
Record Response := {
  wroteHeader : bool;
  status : Z;
  informational : list Z;
  written : string
}.

Definition newResponse : Response :=
  {| wroteHeader := false; status := 0; informational := [];
     written := EmptyString |}.

Definition StatusOK : Z := 200.
Definition StatusSwitchingProtocols : Z := 101.
Definition StatusInternalServerError : Z := 500.

(** [code >= 100 && code <= 199 && code != StatusSwitchingProtocols]:
    the codes [WriteHeader] sends as an informational response. *)
Definition isInformational (code : Z) : bool :=
  (100 <=? code)%Z && (code <=? 199)%Z && negb (code =? StatusSwitchingProtocols)%Z.

(** [response.WriteHeader]: a call after the final status line is ignored
    ("superfluous response.WriteHeader call"); [checkWriteHeaderCode]
    panics on a code outside 100..999; an informational code is sent at
    once and leaves the final status line open. *)
Definition Response_WriteHeader (code : Z) (w : Response) : Response * option any :=
  if wroteHeader w then (w, None)
  else if (code <? 100)%Z || (999 <? code)%Z then
    (w, Some (AnyString ("invalid WriteHeader code " ++ pretty code)))
  else if isInformational code then
    ({| wroteHeader := false; status := status w;
        informational := (informational w ++ [code])%list;
        written := written w |}, None)
  else ({| wroteHeader := true; status := code;
           informational := informational w; written := written w |}, None).

(** [response.Write]: sends [200] first when no final status was sent. *)
Definition Response_Write (data : string) (w : Response) : Response * option any :=
  let w1 := if wroteHeader w then w else fst (Response_WriteHeader StatusOK w) in
  ({| wroteHeader := wroteHeader w1; status := status w1;
      informational := informational w1;
      written := written w1 ++ data |}, None).

(** [response.Flush]: sends [200] first when no final status was sent. *)
Definition Response_Flush (w : Response) : Response * option any :=
  if wroteHeader w then (w, None) else Response_WriteHeader StatusOK w.

#[export] Instance Response_writer : ResponseWriter Response :=
  {| WriteHeader := Response_WriteHeader; Write := Response_Write;
     Flush := Response_Flush |}.

(** The final status line the client gets once the handler is done: the
    server sends [200] when the handler sent none. *)
Definition sentStatus (w : Response) : Z :=
  if wroteHeader w then status w else StatusOK.

(** ** chi/v5/middleware: wrap_writer.go *)

(** [basicWriter], the state of every [WrapResponseWriter]; the wrapped
    [http.ResponseWriter] is the [Response] it is paired with below. *)
Record basicWriter := {
  bw_wroteHeader : bool;
  bw_code : Z;
  bw_bytes : Z
}.

(** [middleware.NewWrapResponseWriter(w, protoMajor)] *)
Definition NewWrapResponseWriter (protoMajor : Z) : basicWriter :=
  {| bw_wroteHeader := false; bw_code := 0; bw_bytes := 0 |}.

(** [basicWriter.WriteHeader]: records the first code, then forwards. *)
Definition basicWriter_WriteHeader (code : Z) (ww : basicWriter * Response)
    : (basicWriter * Response) * option any :=
  let (b, w) := ww in
  if bw_wroteHeader b then (ww, None)
  else
    let b' := {| bw_wroteHeader := true; bw_code := code; bw_bytes := bw_bytes b |} in
    let (w', p) := Response_WriteHeader code w in
    ((b', w'), p).

(** [basicWriter.Write]: [maybeWriteHeader], then forwards and counts. *)
Definition basicWriter_Write (data : string) (ww : basicWriter * Response)
    : (basicWriter * Response) * option any :=
  let '(ww1, p) :=
    if bw_wroteHeader (fst ww) then (ww, None)
    else basicWriter_WriteHeader StatusOK ww in
  match p with
  | Some v => (ww1, Some v)
  | None =>
      let (b, w) := ww1 in
      let (w', p') := Response_Write data w in
      (({| bw_wroteHeader := bw_wroteHeader b; bw_code := bw_code b;
           bw_bytes := bw_bytes b + Z.of_nat (String.length data) |}, w'), p')
  end.

(** [Flush] of the wrappers that have it ([flushWriter],
    [httpFancyWriter], [http2FancyWriter]): marks the header as written,
    without a code, then forwards. *)
Definition basicWriter_Flush (ww : basicWriter * Response)
    : (basicWriter * Response) * option any :=
  let (b, w) := ww in
  let b' := {| bw_wroteHeader := true; bw_code := bw_code b; bw_bytes := bw_bytes b |} in
  let (w', p) := Response_Flush w in
  ((b', w'), p).

(** [basicWriter.Status] *)
Definition Status (b : basicWriter) : Z := bw_code b.

#[export] Instance basicWriter_writer : ResponseWriter (basicWriter * Response) :=
  {| WriteHeader := basicWriter_WriteHeader; Write := basicWriter_Write;
     Flush := basicWriter_Flush |}.

(** ** Handlers *)

(** What a handler does to the response writer it is given. *)
Inductive Op :=
| OpWriteHeader (code : Z)
| OpWrite (data : string)
| OpFlush.

(** An [http.Handler]: from the request it is served, the calls it makes
    on its writer in order and how it ends after them. *)
Definition Handler : Type := http.Request -> list Op * Exit.

(** Run a handler's calls against a writer; a panic inside a call ends
    the handler there. *)
Fixpoint run {W} `{ResponseWriter W} (ops : list Op) (fin : Exit) (w : W) : W * Exit :=
  match ops with
  | [] => (w, fin)
  | op :: rest =>
      let (w', p) := match op with
                     | OpWriteHeader c => WriteHeader c w
                     | OpWrite d => Write d w
                     | OpFlush => Flush w
                     end in
      match p with
      | Some v => (w', Panic v)
      | None => run rest fin w'
      end
  end.

(** [h.ServeHTTP(w, r)] *)
Definition ServeHTTP {W} `{ResponseWriter W} (h : Handler) (w : W) (r : http.Request) : W * Exit :=
  run (fst (h r)) (snd (h r)) w.

(** ** The process: clock, entropy, goroutine, log sink *)

Record World := {
  (** the exported variable [chilog.RequestIDHeader] *)
  RequestIDHeader : string;
  (** the monotonic clock: the n-th reading, in nanoseconds *)
  clock : nat -> Z;
  ticks : nat;
  (** [crypto/rand.Reader]: the n-th byte it yields *)
  rander : nat -> ascii;
  drawn : nat;
  (** the running goroutine, for [debug.Stack] *)
  goid : Z;
  frames : string;
  (** what zerolog has written *)
  logs : list LogRecord
}.

Definition set_ticks (g : World) (n : nat) : World :=
  {| RequestIDHeader := RequestIDHeader g; clock := clock g; ticks := n;
     rander := rander g; drawn := drawn g; goid := goid g; frames := frames g;
     logs := logs g |}.

Definition set_drawn (g : World) (n : nat) : World :=
  {| RequestIDHeader := RequestIDHeader g; clock := clock g; ticks := ticks g;
     rander := rander g; drawn := n; goid := goid g; frames := frames g;
     logs := logs g |}.

(** Write records to the log. *)
Definition write_logs (g : World) (rs : list LogRecord) : World :=
  {| RequestIDHeader := RequestIDHeader g; clock := clock g; ticks := ticks g;
     rander := rander g; drawn := drawn g; goid := goid g; frames := frames g;
     logs := logs g ++ rs |}.

(** [time.Now()]: one reading of the clock. *)
Definition time_Now (g : World) : Z * World :=
  (clock g (ticks g), set_ticks g (S (ticks g))).

Definition maxInt64 : Z := 2 ^ 63 - 1.
Definition minInt64 : Z := - 2 ^ 63.

(** [t.Sub(u)]: a [Duration] is an [int64] of nanoseconds and saturates. *)
Definition Time_Sub (t u : Z) : Z := Z.max minInt64 (Z.min maxInt64 (t - u)).

(** [time.Since(start)] *)
Definition time_Since (start : Z) (g : World) : Z * World :=
  let (t, g') := time_Now g in (Time_Sub t start, g').

(** [debug.Stack()]: the traceback of the running goroutine, which starts
    with its header line. *)
Definition debug_Stack (g : World) : string :=
  "goroutine " ++ pretty (goid g) ++ " [running]:" ++ String "010" (frames g).

(** *** github.com/google/uuid *)

Definition hexdigit (n : N) : ascii :=
  nth (N.to_nat n) (list_ascii_of_string "0123456789abcdef") "0"%char.

(** [hex.Encode] *)
Fixpoint hex_Encode (src : list ascii) : string :=
  match src with
  | [] => EmptyString
  | b :: rest =>
      String (hexdigit (N.shiftr (code b) 4))
        (String (hexdigit (N.land (code b) 15)) (hex_Encode rest))
  end.

(** [UUID.String()]: 8-4-4-4-12 hexadecimal digits. *)
Definition UUID_String (uuid : list ascii) : string :=
  hex_Encode (firstn 4 uuid) ++ "-" ++
  hex_Encode (firstn 2 (skipn 4 uuid)) ++ "-" ++
  hex_Encode (firstn 2 (skipn 6 uuid)) ++ "-" ++
  hex_Encode (firstn 2 (skipn 8 uuid)) ++ "-" ++
  hex_Encode (skipn 10 uuid).

(** [uuid.New()]: sixteen bytes of entropy, stamped version 4, variant 10. *)
Definition uuid_New (g : World) : list ascii * World :=
  let raw := List.map (fun i => rander g (drawn g + i)%nat) (seq 0 16) in
  let v4 := alter (fun b => ascii_of_N (N.lor (N.land (code b) 15) 64)) 6%nat raw in
  let uuid := alter (fun b => ascii_of_N (N.lor (N.land (code b) 63) 128)) 8%nat v4 in
  (uuid, set_drawn g (drawn g + 16)%nat).

(** ** chilog.go *)

Record logFields := {
  RemoteIP : string;
  Host : string;
  Method : string;
  Path : string;
  Body : string;
  StatusCode : Z;
  Latency : Q;
  Error : option error;
  Stack : option string
}.

(** [(l *logFields) MarshalZerologObject(e)]: the fields added to the event. *)
Definition MarshalZerologObject (l : logFields) : list Field :=
  [ ("remote_ip", VStr (RemoteIP l));
    ("host", VStr (Host l));
    ("method", VStr (Method l));
    ("path", VStr (Path l));
    ("body", VStr (Body l));
    ("status_code", VInt (StatusCode l));
    ("latency", VFloat (Latency l));
    ("tag", VStr "request") ]
  ++ match Error l with Some e => [Err e] | None => [] end
  ++ match Stack l with Some b => [("stack", VBytes b)] | None => [] end.

(** [formatReqBody], over the two [encoding/json] functions it calls:
    the string returned and the records it logs. *)
Definition formatReqBody_with
    (Unmarshal : string -> option Json.UnmarshalError)
    (Compact : string -> string * option Json.SyntaxError)
    (data : string) : string * list LogRecord :=
  match Unmarshal data with
  | Some _ => (data, [])
  | None =>
      let (result, err) := Compact data in
      match err with
      | Some e =>
          (EmptyString,
           [emit globalLogger ErrorLevel [Err (SyntaxError e)]
                 "error compacting body request json"])
      | None => (result, [])
      end
  end.

Definition formatReqBody : string -> string * list LogRecord :=
  formatReqBody_with Json.Unmarshal_map Json.Compact.

(** [float64(d.Nanoseconds()/1e4) / 100.0]: the integer quotient
    (truncated, as Go divides [int64]) over one hundred. The rational is
    the exact value of the quotient that Go rounds to a [float64]. *)
Definition latencyOf (d : Z) : Q := Qmake (Z.quot d 10000) 100.

(** The [switch] of the deferred function: level and message. *)
Definition classify (rvr : option any) (statusCode : Z) : Level * string :=
  match rvr with
  | Some _ => (ErrorLevel, "panic recover")
  | None =>
      if (500 <=? statusCode)%Z then (ErrorLevel, "server error")
      else if (400 <=? statusCode)%Z then (ErrorLevel, "client error")
      else if (300 <=? statusCode)%Z then (WarnLevel, "redirect")
      else if (200 <=? statusCode)%Z then (InfoLevel, "success")
      else if (100 <=? statusCode)%Z then (InfoLevel, "informative")
      else (WarnLevel, "unknown status")
  end.

(** [rvr == http.ErrAbortHandler] *)
Definition isAbort (rvr : any) : bool :=
  match rvr with
  | AnyError ErrAbortHandler => true
  | _ => false
  end.

(** [err, ok := rvr.(error); if !ok { err = fmt.Errorf("%v", rvr) }] *)
Definition asError (rvr : any) : error :=
  match rvr with
  | AnyError e => e
  | AnyString s => ErrorString s
  | AnyInt n => ErrorString (pretty n)
  end.

Definition set_panic (f : logFields) (e : error) (st : string) : logFields :=
  {| RemoteIP := RemoteIP f; Host := Host f; Method := Method f;
     Path := Path f; Body := Body f; StatusCode := StatusCode f;
     Latency := Latency f; Error := Some e; Stack := Some st |}.

Definition set_outcome (f : logFields) (code : Z) (lat : Q) : logFields :=
  {| RemoteIP := RemoteIP f; Host := Host f; Method := Method f;
     Path := Path f; Body := Body f; StatusCode := code;
     Latency := lat; Error := Error f; Stack := Stack f |}.

(** The deferred function of [Middleware]. [rvr] is what [recover()]
    returns: [None] when the handler returned. [w] is the writer the
    middleware was given, [ww] the wrapper the handler wrote through.
    Returns the process, the writer [w] and how the middleware ends. *)
Definition deferred (ctx : Context) (start : Z) (fields : logFields)
    (ww : basicWriter) (rvr : option any) (g : World) (w : Response)
    : World * Response * Exit :=
  let finalize (fields : logFields) (g : World) (w : Response) :=
    let (d, g) := time_Since start g in
    let fields := set_outcome fields (Status ww) (latencyOf d) in
    let (lv, msg) := classify rvr (StatusCode fields) in
    (write_logs g [emit (log_Ctx ctx) lv (MarshalZerologObject fields) msg], w, Return) in
  match rvr with
  | Some v =>
      if isAbort v then (g, w, Panic v)
      else
        let fields := set_panic fields (asError v) (debug_Stack g) in
        let (w, p) := WriteHeader StatusInternalServerError w in
        match p with
        | Some v' => (g, w, Panic v')
        | None => finalize fields g w
        end
  | None => finalize fields g w
  end.

(** [recover()] in the deferred function: the value the handler panicked
    with, [None] (nil) when it returned. *)
Definition recover (ex : Exit) : option any :=
  match ex with Panic v => Some v | Return => None end.

(** The [logFields] built before the handler runs (lines 92-98). *)
Definition newFields (r : http.Request) (body : string) : logFields :=
  {| RemoteIP := http.RemoteAddr r; Host := http.Host r; Method := http.Method r;
     Path := http.URL_Path r; Body := body; StatusCode := 0; Latency := 0;
     Error := None; Stack := None |}.

(** What one call of the middleware's handler leaves behind. *)
Record Served := {
  world : World;            (** the process afterwards *)
  response : Response;      (** the writer [w] afterwards *)
  request : http.Request;        (** the request [r], as mutated in place *)
  passed : http.Request;         (** the request [next] was served *)
  observer : option basicWriter; (** the wrapper [next] wrote through, if any *)
  exit : Exit               (** return, or the panic that propagates *)
}.

(** Lines 69-71 of [Middleware]: a request without a value under
    [RequestIDHeader] gets a new UUID set in its header, in place. *)
Definition resolveRequestID (g : World) (r : http.Request) : http.Request * World :=
  if String.eqb (Header_Get (http.Header r) (RequestIDHeader g)) EmptyString then
    let (u, g') := uuid_New g in
    (http.set_Header r (Header_Set (http.Header r) (RequestIDHeader g) (UUID_String u)), g')
  else (r, g).

(** Lines 73-76: the context carrying a logger bound to the request id. *)
Definition requestContext (g : World) (r : http.Request) : Context :=
  {| ctx_logger :=
       Some {| bound := bound globalLogger ++
                 [("request_id", VStr (Header_Get (http.Header r) (RequestIDHeader g)))] |} |}.

(** Lines 83-89: a body, when there is one, is read whole ([buf]), which
    leaves [r.Body] with nothing to yield, and is then replaced by a fresh
    reader over [buf]; the read error is dropped. *)
Definition snapshotBody (r : http.Request) : string * http.Request :=
  match http.Body r with
  | Some b => let '((buf, _), b) := ReadAll b in
              let r := http.set_Body r (Some b) in
              (buf, http.set_Body r (Some (NopCloser_NewBuffer buf)))
  | None => (EmptyString, r)
  end.

(** [filter != nil && filter(w, r)] *)
Definition filtered (filter : option (Response -> http.Request -> bool))
    (w : Response) (r : http.Request) : bool :=
  match filter with Some f => f w r | None => false end.

(** [Middleware(filter)(next).ServeHTTP(w, r)]. A nil [filter] is [None]. *)
Definition Middleware (filter : option (Response -> http.Request -> bool))
    (next : Handler) (g : World) (w : Response) (r : http.Request) : Served :=
  if filtered filter w r then
    let (w', ex) := ServeHTTP next w r in
    {| world := g; response := w'; request := r; passed := r;
       observer := None; exit := ex |}
  else
    let (start, g) := time_Now g in
    let (r, g) := resolveRequestID g r in
    let ctx := requestContext g r in
    let ww := NewWrapResponseWriter (http.ProtoMajor r) in
    let (buf, r) := snapshotBody r in
    let (body, diag) := formatReqBody buf in
    let g := write_logs g diag in
    let fields := newFields r body in
    let r' := http.WithContext r ctx in
    let '((ww', w'), ex) := ServeHTTP next (ww, w) r' in
    let '(g', w'', ex') := deferred ctx start fields ww' (recover ex) g w' in
    {| world := g'; response := w''; request := r; passed := r';
       observer := Some ww'; exit := ex' |}.

(** ** Sample inputs *)

(** A process whose clock advances one second per reading. *)
Definition exampleWorld : World :=
  {| RequestIDHeader := "X-Request-Id";
     clock := fun n => Z.of_nat n * 1000000000;
     ticks := 0;
     rander := fun n => ascii_of_nat (37 * n + 5);
     drawn := 0;
     goid := 7;
     frames := "main.main.func1()";
     logs := [] |}.

(** [GET /] without body and without request id. *)
Definition bareRequest : http.Request :=
  {| http.Method := "GET"; http.Host := "localhost:8080"; http.RemoteAddr := "[::1]:62542";
     http.URL_Path := "/"; http.ProtoMajor := 1; http.Header := ∅; http.Body := None;
     http.Ctx := {| ctx_logger := None |} |}.

(** [POST /items] with a JSON body and an inbound request id. *)
Definition tracedRequest : http.Request :=
  {| http.Method := "POST"; http.Host := "localhost:8080"; http.RemoteAddr := "[::1]:62542";
     http.URL_Path := "/items"; http.ProtoMajor := 1;
     http.Header := {[ "X-Request-Id" := ["abc-123"] ]};
     http.Body := Some {| content := dq "{ 'name' : 'tea', 'qty' : 2 }"; read_err := None |};
     http.Ctx := {| ctx_logger := None |} |}.

(** [GET /healthcheck], which the filter of the README excludes. *)
Definition healthRequest : http.Request :=
  {| http.Method := "GET"; http.Host := "localhost:8080"; http.RemoteAddr := "[::1]:62542";
     http.URL_Path := "/healthcheck"; http.ProtoMajor := 1; http.Header := ∅; http.Body := None;
     http.Ctx := {| ctx_logger := None |} |}.

(** The handler of the README: it sets [200]. *)
Definition okHandler : Handler := fun _ => ([OpWriteHeader 200], Return).


(** A handler that answers, then panics. *)
Definition latePanicHandler : Handler :=
  fun _ => ([OpWrite "partial"], Panic (AnyString "boom")).

(** A handler that sends early hints ([103]), then panics. *)
Definition hintPanicHandler : Handler :=
  fun _ => ([OpWriteHeader 103], Panic (AnyString "boom")).


(** A handler that panics before writing anything. *)
Definition panicHandler : Handler := fun _ => ([], Panic (AnyString "boom")).

(** A handler that aborts the response. *)
Definition abortHandler : Handler :=
  fun _ => ([OpWriteHeader 404], Panic (AnyError ErrAbortHandler)).

(** The filter of the README. *)
Definition healthcheck : Response -> http.Request -> bool :=
  fun _ r => String.eqb (http.URL_Path r) "/healthcheck".

(** ** Vocabulary for the properties below *)

Module Spec.

(** The request record the deferred function writes when it does not
    re-panic. *)
Definition requestRecord (ctx : Context) (start : Z) (fields : logFields)
    (ww : basicWriter) (rvr : option any) (g : World) : LogRecord :=
  let fields :=
    match rvr with
    | Some v => set_panic fields (asError v) (debug_Stack g)
    | None => fields
    end in
  let fields :=
    set_outcome fields (Status ww) (latencyOf (Time_Sub (clock g (ticks g)) start)) in
  emit (log_Ctx ctx) (fst (classify rvr (Status ww)))
       (MarshalZerologObject fields) (snd (classify rvr (Status ww))).

(** The request after the request-id step. *)
Definition resolved (g : World) (r : http.Request) : http.Request :=
  fst (resolveRequestID (snd (time_Now g)) r).

(** The request id under which the request is logged. *)
Definition token (g : World) (r : http.Request) : string :=
  Header_Get (http.Header (resolved g r)) (RequestIDHeader g).

(** What the handler does when it is served the request the middleware
    passes on, through a new wrapper around [w]: the wrapper and the
    writer afterwards, and how the handler ends. *)
Definition handled (filter : option (Response -> http.Request -> bool))
    (next : Handler) (g : World) (w : Response) (r : http.Request)
    : (basicWriter * Response) * Exit :=
  ServeHTTP next (NewWrapResponseWriter (http.ProtoMajor r), w)
            (passed (Middleware filter next g w r)).

(** The request the middleware serves to [next]: after the request-id
    step and the body snapshot, with the logging context attached. *)
Definition served (g : World) (r : http.Request) : http.Request :=
  let rg := resolveRequestID (snd (time_Now g)) r in
  http.WithContext (snd (snapshotBody (fst rg))) (requestContext (snd rg) (fst rg)).

(** The request record of a call that does not re-panic. *)
Definition recordOf (next : Handler) (g : World) (w : Response) (r : http.Request)
    : LogRecord :=
  let rg := resolveRequestID (snd (time_Now g)) r in
  let sb := snapshotBody (fst rg) in
  let h := ServeHTTP next (NewWrapResponseWriter (http.ProtoMajor r), w) (served g r) in
  requestRecord (requestContext (snd rg) (fst rg)) (clock g (ticks g))
    (newFields (snd sb) (fst (formatReqBody (fst sb))))
    (fst (fst h)) (recover (snd h)) (snd rg).

(** [decodable data]: [data] is valid JSON whose top-level value is an
    object with every number in [float64] range, or is [null]. *)
Definition decodable (data : string) : bool :=
  Json.Valid data &&
  match Json.firstByte data with
  | Some "{"%char =>
      forallb (fun t => negb (Json.isNumberLiteral t && Json.ParseFloat_ErrRange t))
              (Json.literals data)
  | Some "n"%char => true
  | _ => false
  end.

(** The record [formatReqBody] logs when compaction fails with [e]. *)
Definition compactionFailure (e : Json.SyntaxError) : LogRecord :=
  {| level := ErrorLevel;
     fields := [Err (SyntaxError e)];
     message := "error compacting body request json" |}.

(** The status a handler leaves in a new wrapper: the code of its first
    [WriteHeader] when that comes first, [200] when it writes body bytes
    first, [0] when it flushes first or does nothing. *)
Definition firstStatus (ops : list Op) : Z :=
  match ops with
  | OpWriteHeader c :: _ => c
  | OpWrite _ :: _ => StatusOK
  | OpFlush :: _ => 0
  | [] => 0
  end.


(** The first call of the handler on its writer settles the final status
    line: a [WriteHeader] with a code that is not informational, or a
    [Write]. *)
Definition settlesStatus (ops : list Op) : bool :=
  match ops with
  | OpWriteHeader c :: _ => negb (isInformational c)
  | OpWrite _ :: _ => true
  | _ => false
  end.

End Spec.


Module JsonSpec.
Import Json.

(** [coherent s]: a scanner in the error state carries its error. *)
Definition coherent (s : scanner) : Prop := step s = StError -> err s <> None.

(** [dropped v]: [compact] drops the byte whose opcode is [v]. *)
Definition dropped (v : opcode) : bool := (opcode_iota scanSkipSpace <=? opcode_iota v)%Z.

(** [erased src dst]: [dst] is [src] with some white-space bytes deleted,
    every other byte kept in place and order. *)
Inductive erased : string -> string -> Prop :=
| erased_nil : erased EmptyString EmptyString
| erased_keep c src dst : erased src dst -> erased (String c src) (String c dst)
| erased_drop c src dst : isSpace c = true -> erased src dst -> erased (String c src) dst.

(** [settled s t]: the scanner [s] of a run over the original text is the
    scanner [t] of the run over the compacted text, up to white space
    that [s] has skipped since the last byte they both read. *)
Definition settled (s t : scanner) : Prop :=
  s = t \/ (dropped (snd (scan t " ")) = true /\ s = fst (scan t " ")).

End JsonSpec.

Module Shape.

(** The bytes of a request's body; none when the body is nil. *)
Definition bodyBytes (r : http.Request) : string :=
  match http.Body r with
  | Some b => content b
  | None => EmptyString
  end.

Definition isLowerHex (c : ascii) : bool := isDigit c || between "a" "f" c.

(** [isUUIDv4_from i s]: [s] is the tail, from position [i], of the
    canonical text of a version 4, variant 10 UUID: 36 characters, dashes
    at 8, 13, 18 and 23, [4] at 14, one of [8 9 a b] at 19, lower-case
    hexadecimal digits elsewhere. *)
Fixpoint isUUIDv4_from (i : nat) (s : string) : bool :=
  match s with
  | EmptyString => Nat.eqb i 36
  | String c rest =>
      (if Nat.eqb i 8 || Nat.eqb i 13 || Nat.eqb i 18 || Nat.eqb i 23 then Ascii.eqb c "-"
       else if Nat.eqb i 14 then Ascii.eqb c "4"
       else if Nat.eqb i 19 then
         Ascii.eqb c "8" || Ascii.eqb c "9" || Ascii.eqb c "a" || Ascii.eqb c "b"
       else isLowerHex c)
      && isUUIDv4_from (S i) rest
  end.

Definition isUUIDv4 (s : string) : bool := isUUIDv4_from 0 s.

(** The literal token being read, if any, as a list. *)
Definition closed (cur : option string) : list string :=
  match cur with Some t => [t] | None => [] end.

End Shape.

(** * Properties *)

(** ** The scanner *)

Module JsonFacts.
Import Json JsonSpec.

Ltac scan_unfold :=
  unfold scan, stateBeginValueOrEmpty, stateBeginValue, stateBeginStringOrEmpty,
    stateBeginString, stateInString, stateInStringEsc, stateInStringEscHex,
    stateNeg, state1, state0, stateDot, stateDot0, stateE, stateESign, stateE0,
    stateLit, stateEndValue, stateEndTop, pushParseState, popParseState,
    error, goto, setTop in *.

Ltac break_match :=
  match goal with
  | |- context [if ?b then _ else _] => destruct b eqn:?
  | |- context [match ?x with _ => _ end] => destruct x eqn:?
  end.

Ltac scan_cases s :=
  destruct s as [st stk e et]; scan_unfold;
  cbn [step stack err endTop fst snd tl] in *; destruct st;
  repeat (break_match; cbn [step stack err endTop fst snd tl] in * );
  cbn [step stack err endTop fst snd tl] in *.

(** The scanner never forgets an error. *)
Lemma scan_keeps_err s c : err s <> None -> err (fst (scan s c)) <> None.
Proof. scan_cases s; congruence. Qed.

Lemma reset_coherent : coherent reset.
Proof. unfold coherent; simpl; congruence. Qed.

Lemma scan_coherent s c : coherent s -> coherent (fst (scan s c)).
Proof. unfold coherent. scan_cases s; intros; try congruence; auto. Qed.

Lemma scan_error_has_err s c :
  coherent s -> snd (scan s c) = scanError -> err (fst (scan s c)) <> None.
Proof. unfold coherent. scan_cases s; intros; try congruence; auto. Qed.

(** Only white space is skipped ... *)
Lemma scan_skip_isSpace s c : snd (scan s c) = scanSkipSpace -> isSpace c = true.
Proof. scan_cases s; intros; congruence. Qed.

(** ... and after the top-level value anything else is an error. *)
Lemma scan_end_isSpace s c :
  snd (scan s c) = scanEnd -> isSpace c = true \/ err (fst (scan s c)) <> None.
Proof. scan_cases s; intros; try congruence; auto. Qed.

Lemma eof_err s : err s <> None -> snd (eof s) = scanError.
Proof. unfold eof. destruct (err s); simpl; congruence. Qed.

Lemma eof_error_has_err s : snd (eof s) = scanError -> err (fst (eof s)) <> None.
Proof.
  unfold eof. destruct (err s) eqn:E; simpl; [congruence|].
  destruct (endTop s); simpl; [congruence|].
  destruct (endTop (fst (scan s " "))); simpl; [congruence|].
  destruct (err (fst (scan s " "))) eqn:E1; simpl; congruence.
Qed.

Lemma compact_loop_keeps_err data : forall s,
  err s <> None -> err (fst (compact_loop s data)) <> None.
Proof.
  induction data as [|c rest IH]; intros s Hs; simpl; [exact Hs|].
  pose proof (scan_keeps_err s c Hs) as Hs'.
  destruct (scan s c) as [s' v]; simpl in Hs'.
  destruct v; simpl; auto;
    specialize (IH s' Hs'); destruct (compact_loop s' rest); exact IH.
Qed.

(** What [checkValid] accepts, [compact] finishes without error. *)
Lemma checkValid_compact_loop data : forall s,
  coherent s -> checkValid_from s data = None ->
  snd (eof (fst (compact_loop s data))) <> scanError.
Proof.
  induction data as [|c rest IH]; intros s Hc Hv; simpl in *.
  - intros He. pose proof (eof_error_has_err s He) as Hn.
    destruct (eof s) as [s' v]; simpl in *; subst v. congruence.
  - pose proof (scan_coherent s c Hc) as Hc'.
    pose proof (scan_error_has_err s c Hc) as He.
    destruct (scan s c) as [s' v]; simpl in *.
    destruct v; try (specialize (IH s' Hc' Hv); simpl;
                     destruct (compact_loop s' rest); exact IH).
    exfalso. apply He; auto.
Qed.

Lemma checkValid_Compact data :
  checkValid data = None -> Compact data = (snd (compact_loop reset data), None).
Proof.
  intros Hv. unfold Compact.
  pose proof (checkValid_compact_loop data reset reset_coherent Hv) as H.
  destruct (compact_loop reset data) as [s out]; simpl in *.
  destruct (eof s) as [s' v]; simpl in *. destruct v; congruence.
Qed.

Lemma compact_loop_erased data : forall s,
  coherent s -> snd (eof (fst (compact_loop s data))) <> scanError ->
  erased data (snd (compact_loop s data)).
Proof.
  induction data as [|c rest IH]; intros s Hc Hok; simpl in *; [constructor|].
  pose proof (scan_coherent s c Hc) as Hc'.
  pose proof (scan_error_has_err s c Hc) as He.
  pose proof (scan_skip_isSpace s c) as Hsk.
  pose proof (scan_end_isSpace s c) as Hend.
  destruct (scan s c) as [s' v]; simpl in *.
  assert (Hgo : snd (eof (fst (compact_loop s' rest))) <> scanError ->
                erased rest (snd (compact_loop s' rest))) by (apply IH; auto).
  destruct v; simpl in *;
    try (destruct (compact_loop s' rest) as [sf out]; simpl in *;
         constructor; auto; fail).
  - destruct Hend as [Hsp|Herr]; [reflexivity| |].
    + apply erased_drop; auto.
    + exfalso. apply Hok. apply eof_err. apply compact_loop_keeps_err. exact Herr.
  - exfalso. apply Hok. apply eof_err. apply He; auto.
Qed.

(** *** Compacting twice changes nothing *)

Lemma isSpace_cases c :
  isSpace c = true -> c = " "%char \/ c = "009"%char \/ c = "010"%char \/ c = "013"%char.
Proof.
  destruct c as [[] [] [] [] [] [] [] []]; vm_compute; intros; try discriminate; auto.
Qed.

Ltac scanner_cases t :=
  destruct t as [st stk e et]; destruct st; destruct stk as [|[] stk].

(** In a state that skips white space, every white-space byte acts as a
    space does. *)
Lemma scan_space_uniform s c :
  coherent s ->
  dropped (snd (scan s c)) = true -> err (fst (scan s c)) = None ->
  scan s " " = scan s c.
Proof.
  intros Hc Hd He.
  assert (Hsp : isSpace c = true).
  { pose proof (scan_skip_isSpace s c) as Hsk.
    pose proof (scan_end_isSpace s c) as Hend.
    pose proof (scan_error_has_err s c Hc) as Herr.
    destruct (snd (scan s c)); try discriminate.
    - auto.
    - destruct (Hend eq_refl); [assumption | congruence].
    - exfalso. apply Herr; auto. }
  destruct (isSpace_cases c Hsp) as [-> | [-> | [-> | ->]]]; [reflexivity| | |];
    revert Hd He; clear; scanner_cases s; vm_compute; intros; congruence.
Qed.

(** Once white space was skipped, more of it changes nothing. *)
Lemma scan_space_twice t :
  dropped (snd (scan t " ")) = true -> err (fst (scan t " ")) = None ->
  fst (scan (fst (scan t " ")) " ") = fst (scan t " ").
Proof.
  scanner_cases t; vm_compute; intros; congruence.
Qed.

Lemma scan_space_dropped t :
  dropped (snd (scan t " ")) = true -> err (fst (scan t " ")) = None ->
  dropped (snd (scan (fst (scan t " ")) " ")) = true.
Proof.
  scanner_cases t; vm_compute; intros; congruence.
Qed.

(** At the end of input, skipped white space made no difference. *)
Lemma eof_after_space t :
  dropped (snd (scan t " ")) = true -> err (fst (scan t " ")) = None ->
  snd (eof (fst (scan t " "))) <> scanError -> snd (eof t) <> scanError.
Proof.
  scanner_cases t; destruct e; destruct et; vm_compute; intros; congruence.
Qed.

Ltac eqb_subst :=
  repeat match goal with
  | H : Ascii.eqb ?c _ = true |- _ => apply Ascii.eqb_eq in H; subst c
  end.

Ltac kept_absurd :=
  match goal with
  | H : (_ <=? _)%Z = false |- _ => vm_compute in H; discriminate H
  end.

(** A byte that is kept after skipped white space is scanned as it would
    be without the white space. *)
Lemma scan_after_space t c :
  dropped (snd (scan t " ")) = true -> err (fst (scan t " ")) = None ->
  dropped (snd (scan (fst (scan t " ")) c)) = false ->
  scan t c = scan (fst (scan t " ")) c.
Proof.
  destruct t as [st stk e et]; destruct st; destruct stk as [|p stk];
    match goal with
    | |- context [scan ?t " "] =>
        let r := fresh "r" in let E := fresh "E" in
        remember (scan t " ") as r eqn:E; vm_compute in E; subst r
    end;
    cbn [fst snd err]; try (intros; reflexivity);
    try (intros H; vm_compute in H; discriminate H);
    try (intros _ H; discriminate H).
  all: intros _ _; unfold dropped; scan_unfold;
    cbn [step stack err endTop fst snd tl].
  all: repeat (break_match; cbn [step stack err endTop fst snd tl opcode_iota] in * ).
  all: intros; try reflexivity; try kept_absurd.
  all: eqb_subst; try discriminate.
Qed.

Lemma compact_ok_err_none data s :
  snd (eof (fst (compact_loop s data))) <> scanError -> err s = None.
Proof.
  intros Hok. destruct (err s) eqn:E; [|reflexivity].
  exfalso. apply Hok, eof_err, compact_loop_keeps_err. congruence.
Qed.

Lemma compact_loop_fixed data : forall s t,
  settled s t -> coherent s ->
  snd (eof (fst (compact_loop s data))) <> scanError ->
  snd (compact_loop t (snd (compact_loop s data))) = snd (compact_loop s data) /\
  snd (eof (fst (compact_loop t (snd (compact_loop s data))))) <> scanError.
Proof.
  induction data as [|c rest IH]; intros s t Hst Hc Hok.
  - simpl in *. split; [reflexivity|].
    destruct Hst as [->|[Hd ->]]; [exact Hok|].
    apply eof_after_space; auto.
    apply (compact_ok_err_none EmptyString). exact Hok.
  - pose proof (compact_ok_err_none _ _ Hok) as Hs.
    pose proof (scan_coherent s c Hc) as Hc'.
    pose proof (scan_error_has_err s c Hc) as He.
    pose proof (scan_space_uniform s c Hc) as Hu.
    cbn [compact_loop] in *.
    destruct (scan s c) as [s' v] eqn:Escan. cbn [fst snd] in *.
    fold (dropped v) in *.
    destruct (dropped v) eqn:Ed.
    + assert (Hv : v <> scanError).
      { intros ->. apply Hok, eof_err. cbn [fst]. auto. }
      assert (Hok' : snd (eof (fst (compact_loop s' rest))) <> scanError)
        by (destruct v; congruence).
      assert (Hout : compact_loop s' rest =
                     match v with scanError => (s', String c rest) | _ => compact_loop s' rest end)
        by (destruct v; congruence).
      rewrite <- Hout in *.
      pose proof (compact_ok_err_none _ _ Hok') as Hs'.
      specialize (Hu eq_refl Hs').
      apply IH; auto.
      destruct Hst as [->|[Hd ->]].
      * right. rewrite Hu. auto.
      * right. split; [exact Hd|].
        apply (f_equal fst) in Hu. cbn [fst] in Hu.
        rewrite <- Hu. apply scan_space_twice; auto.
    + assert (Ht : scan t c = (s', v)).
      { destruct Hst as [->|[Hd ->]]; [exact Escan|].
        rewrite (scan_after_space t c); auto. rewrite Escan. exact Ed. }
      destruct (compact_loop s' rest) as [sf out] eqn:El. cbn [fst snd] in *.
      cbn [compact_loop]. rewrite Ht. fold (dropped v). rewrite Ed.
      assert (Hsf : sf = fst (compact_loop s' rest)) by (rewrite El; reflexivity).
      assert (Hout : out = snd (compact_loop s' rest)) by (rewrite El; reflexivity).
      destruct (IH s' s') as [IH1 IH2]; [left; reflexivity | exact Hc' | congruence |].
      rewrite <- Hout in IH1, IH2.
      destruct (compact_loop s' out) as [sf' out'] eqn:El'. cbn [fst snd] in *.
      split; congruence.
Qed.

(** [json.Compact] is idempotent: its output has no white space left that
    it would remove. *)
Lemma Compact_fixed data out :
  Compact data = (out, None) -> Compact out = (out, None).
Proof.
  unfold Compact. intros H.
  destruct (compact_loop reset data) as [s o] eqn:El.
  destruct (eof s) as [s1 v] eqn:Ee.
  assert (Hok : snd (eof (fst (compact_loop reset data))) <> scanError).
  { rewrite El; cbn [fst]; rewrite Ee; cbn [snd].
    intros ->. pose proof (eof_error_has_err s) as Hn. rewrite Ee in Hn.
    cbn [fst snd] in Hn. inversion H; subst. apply Hn; auto. }
  assert (Ho : o = out) by (destruct v; inversion H; auto; exfalso; apply Hok;
                            rewrite El; cbn [fst]; rewrite Ee; reflexivity).
  subst o.
  destruct (compact_loop_fixed data reset reset (or_introl eq_refl) reset_coherent Hok)
    as [H1 H2].
  rewrite El in H1, H2. cbn [snd] in H1, H2.
  destruct (compact_loop reset out) as [s2 o2]. cbn [fst snd] in *. subst o2.
  destruct (eof s2) as [s3 v3]. cbn [snd] in H2. destruct v3; congruence.
Qed.

End JsonFacts.

(** ** formatReqBody *)

Lemma Unmarshal_map_valid data :
  Json.Unmarshal_map data = None -> Json.checkValid data = None.
Proof.
  unfold Json.Unmarshal_map. destruct (Json.checkValid data); [discriminate|reflexivity].
Qed.

(** Compaction cannot fail on what [Unmarshal] accepted. *)
Lemma formatReqBody_decoded data :
  Json.Unmarshal_map data = None ->
  Json.Compact data = (fst (Json.Compact data), None) /\
  formatReqBody data = (fst (Json.Compact data), []).
Proof.
  intros H. pose proof (JsonFacts.checkValid_Compact data (Unmarshal_map_valid data H)) as Hc.
  unfold formatReqBody, formatReqBody_with. rewrite H, Hc. auto.
Qed.

Lemma formatReqBody_raw data :
  Json.Unmarshal_map data <> None -> formatReqBody data = (data, []).
Proof.
  intros H. unfold formatReqBody, formatReqBody_with.
  destruct (Json.Unmarshal_map data); [reflexivity|congruence].
Qed.

(** With [encoding/json], [formatReqBody] never logs. *)
Lemma formatReqBody_silent data : snd (formatReqBody data) = [].
Proof.
  destruct (Json.Unmarshal_map data) eqn:E.
  - rewrite formatReqBody_raw; [reflexivity|congruence].
  - destruct (formatReqBody_decoded data E) as [_ ->]. reflexivity.
Qed.

(** ** The deferred function *)

Lemma WriteHeader_500 (w : Response) :
  snd (WriteHeader StatusInternalServerError w) = None.
Proof. simpl. unfold Response_WriteHeader. destruct (wroteHeader w); reflexivity. Qed.

Lemma isAbort_spec v : isAbort v = true <-> v = AnyError ErrAbortHandler.
Proof.
  split; [|intros ->; reflexivity].
  destruct v as [[]| |]; simpl; congruence.
Qed.

Lemma deferred_abort ctx start fields ww g w :
  deferred ctx start fields ww (Some (AnyError ErrAbortHandler)) g w
  = (g, w, Panic (AnyError ErrAbortHandler)).
Proof. reflexivity. Qed.

Lemma deferred_logged ctx start fields ww rvr g w :
  rvr <> Some (AnyError ErrAbortHandler) ->
  deferred ctx start fields ww rvr g w
  = (write_logs (snd (time_Now g)) [Spec.requestRecord ctx start fields ww rvr g],
     match rvr with
     | Some _ => fst (WriteHeader StatusInternalServerError w)
     | None => w
     end,
     Return).
Proof.
  intros H. unfold deferred, Spec.requestRecord.
  destruct rvr as [v|].
  - destruct (isAbort v) eqn:Ea.
    + apply isAbort_spec in Ea. congruence.
    + pose proof (WriteHeader_500 w) as Hw.
      destruct (WriteHeader StatusInternalServerError w) as [w1 p]. simpl in Hw. subst p.
      cbn [fst]. unfold time_Since, time_Now. cbn [fst snd StatusCode set_outcome].
      destruct (classify (Some v) (Status ww)). reflexivity.
  - unfold time_Since, time_Now. cbn [fst snd StatusCode set_outcome].
    destruct (classify None (Status ww)). reflexivity.
Qed.

(** ** The middleware, step by step *)

Lemma Middleware_filtered filter next g w r :
  filtered filter w r = true ->
  Middleware filter next g w r
  = {| world := g; response := fst (ServeHTTP next w r); request := r;
       passed := r; observer := None; exit := snd (ServeHTTP next w r) |}.
Proof.
  intros H. unfold Middleware. rewrite H. destruct (ServeHTTP next w r). reflexivity.
Qed.

Lemma Middleware_unfiltered filter next g w r :
  filtered filter w r = false ->
  let rg := resolveRequestID (snd (time_Now g)) r in
  let ctx := requestContext (snd rg) (fst rg) in
  let sb := snapshotBody (fst rg) in
  let h := ServeHTTP next (NewWrapResponseWriter (http.ProtoMajor (fst rg)), w)
                     (http.WithContext (snd sb) ctx) in
  let d := deferred ctx (clock g (ticks g)) (newFields (snd sb) (fst (formatReqBody (fst sb))))
                    (fst (fst h)) (recover (snd h)) (snd rg) (snd (fst h)) in
  Middleware filter next g w r
  = {| world := fst (fst d); response := snd (fst d); request := snd sb;
       passed := http.WithContext (snd sb) ctx; observer := Some (fst (fst h));
       exit := snd d |}.
Proof.
  intros H. unfold Middleware. rewrite H. cbn zeta.
  unfold time_Now at 1. cbn [fst snd].
  destruct (resolveRequestID _ r) as [r1 g1]. cbn [fst snd].
  destruct (snapshotBody r1) as [buf r2]. cbn [fst snd].
  pose proof (formatReqBody_silent buf) as Hs.
  destruct (formatReqBody buf) as [body diag]. cbn [fst snd] in *. subst diag.
  replace (write_logs g1 []) with g1
    by (destruct g1; unfold write_logs; simpl; rewrite app_nil_r; reflexivity).
  destruct (ServeHTTP next _ _) as [[ww' w'] ex]. cbn [fst snd].
  destruct (deferred _ _ _ _ _ _ _) as [[g' w''] ex']. reflexivity.
Qed.

(** The steps before the handler leave the log and the configuration
    alone, and read the clock once. *)
Lemma resolve_logs g r : logs (snd (resolveRequestID g r)) = logs g.
Proof. unfold resolveRequestID. destruct (String.eqb _ _); reflexivity. Qed.

Lemma resolve_ticks g r : ticks (snd (resolveRequestID g r)) = ticks g.
Proof. unfold resolveRequestID. destruct (String.eqb _ _); reflexivity. Qed.

Lemma resolve_clock g r : clock (snd (resolveRequestID g r)) = clock g.
Proof. unfold resolveRequestID. destruct (String.eqb _ _); reflexivity. Qed.

Lemma resolve_header_name g r :
  RequestIDHeader (snd (resolveRequestID g r)) = RequestIDHeader g.
Proof. unfold resolveRequestID. destruct (String.eqb _ _); reflexivity. Qed.

Lemma resolve_Body g r : http.Body (fst (resolveRequestID g r)) = http.Body r.
Proof. unfold resolveRequestID. destruct (String.eqb _ _); reflexivity. Qed.

Lemma handled_unfiltered filter next g w r :
  filtered filter w r = false ->
  Spec.handled filter next g w r
  = ServeHTTP next (NewWrapResponseWriter (http.ProtoMajor r), w) (Spec.served g r).
Proof.
  intros H. unfold Spec.handled. rewrite (Middleware_unfiltered _ _ _ _ _ H). reflexivity.
Qed.

(** When the handler aborts, the middleware re-panics and has logged
    nothing. *)
Lemma Middleware_aborted filter next g w r :
  filtered filter w r = false ->
  snd (Spec.handled filter next g w r) = Panic (AnyError ErrAbortHandler) ->
  let s := Middleware filter next g w r in
  exit s = Panic (AnyError ErrAbortHandler) /\ logs (world s) = logs g /\
  response s = snd (fst (Spec.handled filter next g w r)) /\
  world s = snd (resolveRequestID (snd (time_Now g)) r).
Proof.
  intros H Hex. rewrite (handled_unfiltered _ _ _ _ _ H) in *.
  cbv zeta. rewrite (Middleware_unfiltered _ _ _ _ _ H). cbv zeta. cbn [exit world response].
  unfold Spec.served in Hex |- *.
  change (NewWrapResponseWriter (http.ProtoMajor (fst (resolveRequestID (snd (time_Now g)) r))))
    with (NewWrapResponseWriter (http.ProtoMajor r)).
  destruct (ServeHTTP next _ _) as [[ww w'] ex]. cbn [fst snd] in *. subst ex.
  cbn [recover]. rewrite deferred_abort. cbn [fst snd].
  rewrite resolve_logs. auto.
Qed.

(** Otherwise it returns, having written exactly the request record. *)
Lemma Middleware_logged filter next g w r :
  filtered filter w r = false ->
  snd (Spec.handled filter next g w r) <> Panic (AnyError ErrAbortHandler) ->
  let s := Middleware filter next g w r in
  let h := Spec.handled filter next g w r in
  exit s = Return /\
  logs (world s) = (logs g ++ [Spec.recordOf next g w r])%list /\
  response s = match snd h with
               | Panic _ => fst (WriteHeader StatusInternalServerError (snd (fst h)))
               | Return => snd (fst h)
               end /\
  observer s = Some (fst (fst h)) /\
  world s = write_logs (snd (time_Now (snd (resolveRequestID (snd (time_Now g)) r))))
                       [Spec.recordOf next g w r].
Proof.
  intros H Hex. rewrite (handled_unfiltered _ _ _ _ _ H) in *.
  cbv zeta. rewrite (Middleware_unfiltered _ _ _ _ _ H). cbv zeta.
  cbn [exit world response observer].
  unfold Spec.recordOf at 1. unfold Spec.recordOf, Spec.served in *.
  change (NewWrapResponseWriter (http.ProtoMajor (fst (resolveRequestID (snd (time_Now g)) r))))
    with (NewWrapResponseWriter (http.ProtoMajor r)).
  destruct (ServeHTTP next _ _) as [[ww w'] ex]. cbn [fst snd] in *.
  rewrite deferred_logged by (destruct ex; simpl; congruence).
  cbn [fst snd]. unfold write_logs at 1. cbn [logs].
  unfold time_Now at 1. cbn [snd set_ticks logs]. rewrite resolve_logs.
  repeat split. destruct ex; reflexivity.
Qed.


(** A code that is not informational, once accepted, is the final status. *)
Lemma Response_WriteHeader_wrote c (w : Response) :
  isInformational c = false ->
  snd (Response_WriteHeader c w) = None ->
  wroteHeader (fst (Response_WriteHeader c w)) = true.
Proof.
  intros Hc. unfold Response_WriteHeader. destruct (wroteHeader w) eqn:Ew; [auto|].
  destruct ((c <? 100)%Z || (999 <? c)%Z); [simpl; congruence|].
  rewrite Hc. reflexivity.
Qed.

Lemma Response_WriteHeader_OK (w : Response) :
  snd (Response_WriteHeader StatusOK w) = None.
Proof. unfold Response_WriteHeader. destruct (wroteHeader w); reflexivity. Qed.


Lemma Response_Flush_wrote (w : Response) :
  wroteHeader (fst (Response_Flush w)) = true /\ snd (Response_Flush w) = None.
Proof.
  unfold Response_Flush. destruct (wroteHeader w) eqn:Ew; [auto|].
  split; [|apply Response_WriteHeader_OK].
  apply Response_WriteHeader_wrote; [reflexivity | apply Response_WriteHeader_OK].
Qed.


Lemma basicWriter_Flush_forwards (b : basicWriter) (w : Response) :
  snd (fst (basicWriter_Flush (b, w))) = fst (Response_Flush w) /\
  snd (basicWriter_Flush (b, w)) = None /\
  bw_wroteHeader (fst (fst (basicWriter_Flush (b, w)))) = true /\
  Status (fst (fst (basicWriter_Flush (b, w)))) = Status b.
Proof.
  unfold basicWriter_Flush. destruct (Response_Flush_wrote w) as [_ Hn].
  destruct (Response_Flush w) as [w' p]. cbn [fst snd] in *. subst p. auto.
Qed.


(** Once the wrapper has marked its header as written, it keeps the
    status it holds. *)
Lemma run_status_kept ops fin : forall (b : basicWriter) (w : Response),
  bw_wroteHeader b = true ->
  Status (fst (fst (run ops fin (b, w)))) = Status b.
Proof.
  induction ops as [|op rest IH]; intros b w Hb; [reflexivity|].
  destruct op as [c|d|]; cbn [run WriteHeader Write Flush basicWriter_writer].
  - unfold basicWriter_WriteHeader. rewrite Hb. apply IH, Hb.
  - unfold basicWriter_Write. cbn [fst]. rewrite Hb.
    unfold Response_Write. cbn [fst snd]. rewrite IH by exact Hb. reflexivity.
  - destruct (basicWriter_Flush_forwards b w) as (_ & H2 & H3 & H4).
    destruct (basicWriter_Flush (b, w)) as [[b1 w1] p1]. cbn [fst snd] in *. subst p1.
    rewrite IH by exact H3. exact H4.
Qed.

Lemma run_status_first ops fin p (w : Response) :
  Status (fst (fst (run ops fin (NewWrapResponseWriter p, w)))) = Spec.firstStatus ops.
Proof.
  destruct ops as [|[c|d|] rest]; [reflexivity| | |];
    cbn [run WriteHeader Write Flush basicWriter_writer Spec.firstStatus].
  - unfold basicWriter_WriteHeader. cbn [bw_wroteHeader NewWrapResponseWriter].
    destruct (Response_WriteHeader c w) as [w' [v|]]; [reflexivity|].
    rewrite run_status_kept; reflexivity.
  - unfold basicWriter_Write, basicWriter_WriteHeader.
    cbn [fst bw_wroteHeader NewWrapResponseWriter].
    pose proof (Response_WriteHeader_OK w) as Hp.
    destruct (Response_WriteHeader StatusOK w) as [w' p']. cbn [snd] in Hp. subst p'.
    unfold Response_Write. cbn [fst snd]. rewrite run_status_kept; reflexivity.
  - destruct (basicWriter_Flush_forwards (NewWrapResponseWriter p) w) as (_ & H2 & H3 & H4).
    destruct (basicWriter_Flush (NewWrapResponseWriter p, w)) as [[b1 w1] p1].
    cbn [fst snd] in *. subst p1. rewrite run_status_kept by exact H3. exact H4.
Qed.

(** Once wrapper and writer have both settled the status, neither
    changes it. *)
Lemma run_status_final ops fin : forall (b : basicWriter) (w : Response),
  bw_wroteHeader b = true -> wroteHeader w = true ->
  wroteHeader (snd (fst (run ops fin (b, w)))) = true /\
  status (snd (fst (run ops fin (b, w)))) = status w.
Proof.
  induction ops as [|op rest IH]; intros b w Hb Hw; [split; [exact Hw|reflexivity]|].
  destruct op as [c|d|]; cbn [run WriteHeader Write Flush basicWriter_writer].
  - unfold basicWriter_WriteHeader. rewrite Hb. apply IH; assumption.
  - unfold basicWriter_Write. cbn [fst]. rewrite Hb.
    unfold Response_Write. rewrite Hw. cbn [fst snd].
    destruct (IH {| bw_wroteHeader := bw_wroteHeader b; bw_code := bw_code b;
                    bw_bytes := bw_bytes b + Z.of_nat (String.length d) |}
                 {| wroteHeader := wroteHeader w; status := status w;
                    informational := informational w; written := written w ++ d |}
                 Hb Hw) as [IH1 IH2].
    split; [exact IH1 | exact IH2].
  - unfold basicWriter_Flush, Response_Flush. rewrite Hw.
    apply IH; [reflexivity | exact Hw].
Qed.

(** A handler whose first call settles the final status line, on a
    writer that had sent none: unless it panics, the wrapper's status is
    the final status of the writer. *)
Lemma run_settles ops fin p (w : Response) :
  Spec.settlesStatus ops = true ->
  wroteHeader w = false ->
  (forall v, snd (run ops fin (NewWrapResponseWriter p, w)) <> Panic v) ->
  wroteHeader (snd (fst (run ops fin (NewWrapResponseWriter p, w)))) = true /\
  sentStatus (snd (fst (run ops fin (NewWrapResponseWriter p, w)))) = Spec.firstStatus ops.
Proof.
  intros Hset Hw Hnp.
  assert (Hgo : forall b1 w1 rest,
            bw_wroteHeader b1 = true -> wroteHeader w1 = true ->
            wroteHeader (snd (fst (run rest fin (b1, w1)))) = true /\
            sentStatus (snd (fst (run rest fin (b1, w1)))) = status w1).
  { intros b1 w1 rest Hb1 Hw1.
    destruct (run_status_final rest fin b1 w1 Hb1 Hw1) as [Ha Hb].
    split; [exact Ha|]. unfold sentStatus. rewrite Ha. exact Hb. }
  destruct ops as [|[c|d|] rest]; try discriminate Hset;
    cbn [Spec.settlesStatus Spec.firstStatus] in *;
    cbn [run WriteHeader Write Flush basicWriter_writer] in *.
  - apply negb_true_iff in Hset.
    unfold basicWriter_WriteHeader in *. cbn [bw_wroteHeader NewWrapResponseWriter] in *.
    unfold Response_WriteHeader in *. rewrite Hw, Hset in *.
    destruct ((c <? 100)%Z || (999 <? c)%Z).
    + exfalso. eapply Hnp. reflexivity.
    + apply Hgo; reflexivity.
  - unfold basicWriter_Write, basicWriter_WriteHeader in *.
    cbn [fst bw_wroteHeader NewWrapResponseWriter] in *.
    unfold Response_Write, Response_WriteHeader in *. rewrite Hw in *.
    cbn [fst snd orb Z.ltb Z.leb Z.eqb Z.compare StatusOK StatusSwitchingProtocols
         Pos.compare Pos.compare_cont Pos.eqb isInformational andb negb
         wroteHeader status informational written] in *.
    apply Hgo; reflexivity.
Qed.

(** ** The request record *)

Lemma recordOf_level_message next g w r :
  let h := ServeHTTP next (NewWrapResponseWriter (http.ProtoMajor r), w) (Spec.served g r) in
  (level (Spec.recordOf next g w r), message (Spec.recordOf next g w r))
  = classify (recover (snd h)) (Status (fst (fst h))).
Proof.
  cbv zeta. unfold Spec.recordOf, Spec.requestRecord. cbn [level message emit].
  destruct (classify _ _); reflexivity.
Qed.

Lemma recordOf_tag next g w r :
  field "tag" (fields (Spec.recordOf next g w r)) = Some (VStr "request").
Proof. reflexivity. Qed.

Lemma recordOf_request_id next g w r :
  field "request_id" (fields (Spec.recordOf next g w r)) = Some (VStr (Spec.token g r)).
Proof.
  unfold Spec.recordOf, Spec.requestRecord, Spec.token, Spec.resolved.
  cbn. rewrite resolve_header_name. reflexivity.
Qed.

Lemma recordOf_status_code next g w r :
  let h := ServeHTTP next (NewWrapResponseWriter (http.ProtoMajor r), w) (Spec.served g r) in
  field "status_code" (fields (Spec.recordOf next g w r))
  = Some (VInt (Status (fst (fst h)))).
Proof. reflexivity. Qed.

Lemma recordOf_latency next g w r :
  field "latency" (fields (Spec.recordOf next g w r))
  = Some (VFloat (latencyOf (Time_Sub (clock g (S (ticks g))) (clock g (ticks g))))).
Proof.
  unfold Spec.recordOf, Spec.requestRecord. cbn.
  rewrite resolve_clock, resolve_ticks. reflexivity.
Qed.

Lemma recordOf_error_stack next g w r v :
  snd (ServeHTTP next (NewWrapResponseWriter (http.ProtoMajor r), w) (Spec.served g r)) = Panic v ->
  field "error" (fields (Spec.recordOf next g w r))
  = Some (VStr (error_Error (asError v))) /\
  field "stack" (fields (Spec.recordOf next g w r))
  = Some (VBytes (debug_Stack (snd (resolveRequestID (snd (time_Now g)) r)))).
Proof.
  intros H. unfold Spec.recordOf, Spec.requestRecord. rewrite H. split; reflexivity.
Qed.

(** ** Panic guard, severity and filter *)

(** C1. For a request the filter lets through, the finalize-and-log step
    runs exactly once whether the handler returns or panics: the
    middleware returns and the log has grown by exactly one record, the
    request record (tagged [request]). The one exception is a panic with
    [http.ErrAbortHandler]: it leaves the middleware as the same panic,
    and nothing has been logged. *)
Theorem finalize_and_log_once filter next g w r :
  filtered filter w r = false ->
  let s := Middleware filter next g w r in
  let ex := snd (Spec.handled filter next g w r) in
  (ex = Panic (AnyError ErrAbortHandler) ->
     exit s = Panic (AnyError ErrAbortHandler) /\ logs (world s) = logs g) /\
  (ex <> Panic (AnyError ErrAbortHandler) ->
     exit s = Return /\
     exists rec, logs (world s) = (logs g ++ [rec])%list /\
                 field "tag" (fields rec) = Some (VStr "request")).
Proof.
  intros H s ex. split; intros Hex.
  - destruct (Middleware_aborted _ _ _ _ _ H Hex) as (He & Hl & _). auto.
  - destruct (Middleware_logged _ _ _ _ _ H Hex) as (He & Hl & _).
    split; [exact He|]. exists (Spec.recordOf next g w r).
    split; [exact Hl | apply recordOf_tag].
Qed.

Lemma finalize_and_log_once_witness :
  (exit (Middleware (Some healthcheck) latePanicHandler exampleWorld newResponse tracedRequest)
   = Return /\
   exists rec,
     logs (world (Middleware (Some healthcheck) latePanicHandler exampleWorld
                             newResponse tracedRequest)) = ([] ++ [rec])%list /\
     field "tag" (fields rec) = Some (VStr "request")) /\
  (exit (Middleware None abortHandler exampleWorld newResponse bareRequest)
   = Panic (AnyError ErrAbortHandler) /\
   logs (world (Middleware None abortHandler exampleWorld newResponse bareRequest)) = []).
Proof.
  split.
  - apply (proj2 (finalize_and_log_once (Some healthcheck) latePanicHandler exampleWorld
                    newResponse tracedRequest eq_refl)).
    vm_compute. discriminate.
  - exact (proj1 (finalize_and_log_once None abortHandler exampleWorld newResponse
                    bareRequest eq_refl) eq_refl).
Defined.

(** C2, as claimed, fails: a handler that has already sent its final
    status line and then panics leaves the client with that status. Here
    the handler writes body bytes (hence [200]) and panics with a string;
    the forced [500] is a superfluous [WriteHeader] and is ignored. *)
Lemma panic_after_write_keeps_status :
  let s := Middleware None latePanicHandler exampleWorld newResponse bareRequest in
  snd (Spec.handled None latePanicHandler exampleWorld newResponse bareRequest)
    = Panic (AnyString "boom") /\
  exit s = Return /\
  sentStatus (response s) = 200 /\
  sentStatus (response s) <> StatusInternalServerError.
Proof. vm_compute. repeat split; discriminate. Qed.

(** C2, amended. When the handler panics with a value other than
    [http.ErrAbortHandler], the middleware returns normally; the record's
    [error] is the text of the value (of the error when it is one,
    otherwise the value formatted with [%v]: a string as it is, an integer
    in decimal); the stack trace logged is the non-empty trace of the
    goroutine; [WriteHeader(500)] is called on the writer the middleware
    was given, so the client gets [500] when no final status line had
    been sent yet (informational responses sent before do not count) and
    keeps the status already sent otherwise; and exactly one record is
    written, at level error with message [panic recover]. *)
Theorem panic_recovered filter next g w r v :
  filtered filter w r = false ->
  snd (Spec.handled filter next g w r) = Panic v ->
  v <> AnyError ErrAbortHandler ->
  let s := Middleware filter next g w r in
  let w' := snd (fst (Spec.handled filter next g w r)) in
  exit s = Return /\
  response s = fst (WriteHeader StatusInternalServerError w') /\
  (wroteHeader w' = false ->
     sentStatus (response s) = StatusInternalServerError /\
     informational (response s) = informational w' /\
     written (response s) = written w') /\
  (wroteHeader w' = true -> response s = w') /\
  exists rec st,
    logs (world s) = (logs g ++ [rec])%list /\
    level rec = ErrorLevel /\ message rec = "panic recover" /\
    field "error" (fields rec) = Some (VStr (error_Error (asError v))) /\
    (forall e, v = AnyError e -> error_Error (asError v) = error_Error e) /\
    (forall t, v = AnyString t -> error_Error (asError v) = t) /\
    (forall n, v = AnyInt n -> error_Error (asError v) = pretty n) /\
    field "stack" (fields rec) = Some (VBytes st) /\ st <> EmptyString.
Proof.
  intros H Hex Hv s w'.
  assert (Hna : snd (Spec.handled filter next g w r) <> Panic (AnyError ErrAbortHandler))
    by (rewrite Hex; congruence).
  destruct (Middleware_logged _ _ _ _ _ H Hna) as (He & Hl & Hr & _).
  rewrite Hex in Hr. fold s in He, Hl, Hr. fold w' in Hr.
  split; [exact He|]. split; [exact Hr|].
  split; [|split].
  - intros Hw. rewrite Hr. cbn. unfold Response_WriteHeader. rewrite Hw. cbn. auto.
  - intros Hw. rewrite Hr. cbn. unfold Response_WriteHeader. rewrite Hw. reflexivity.
  - rewrite (handled_unfiltered _ _ _ _ _ H) in Hex.
    destruct (recordOf_error_stack next g w r v Hex) as [Herr Hst].
    pose proof (recordOf_level_message next g w r) as Hlm. cbv zeta in Hlm.
    rewrite Hex in Hlm. cbn [recover classify] in Hlm.
    exists (Spec.recordOf next g w r), (debug_Stack (snd (resolveRequestID (snd (time_Now g)) r))).
    repeat split; try assumption; try congruence.
    + intros e ->. reflexivity.
    + intros t ->. reflexivity.
    + intros n ->. reflexivity.
    + unfold debug_Stack. discriminate.
Qed.

Lemma panic_recovered_witness :
  let s := Middleware None hintPanicHandler exampleWorld newResponse tracedRequest in
  exit s = Return /\
  sentStatus (response s) = StatusInternalServerError /\
  informational (response s) = [103] /\
  map (field "error") (map fields (logs (world s))) = [Some (VStr "boom")].
Proof.
  pose proof (panic_recovered None hintPanicHandler exampleWorld newResponse tracedRequest
                (AnyString "boom") eq_refl eq_refl ltac:(discriminate)) as H.
  cbv zeta in H. destruct H as (He & _ & Hs & _).
  split; [exact He|]. split; [exact (proj1 (Hs eq_refl))|].
  split; vm_compute; reflexivity.
Defined.

(** C3. The level and message of the request record follow the fixed
    precedence: a recovered panic gives error / [panic recover] whatever
    the status; otherwise the status the wrapper reports, which is the
    record's [status_code], decides: 500 and up error / [server error],
    400..499 error / [client error], 300..399 warn / [redirect], 200..299
    info / [success], 100..199 info / [informative], anything below warn /
    [unknown status]. *)
Theorem severity_by_status filter next g w r :
  filtered filter w r = false ->
  snd (Spec.handled filter next g w r) <> Panic (AnyError ErrAbortHandler) ->
  let s := Middleware filter next g w r in
  let h := Spec.handled filter next g w r in
  exists rec code,
    logs (world s) = (logs g ++ [rec])%list /\
    code = Status (fst (fst h)) /\
    field "status_code" (fields rec) = Some (VInt code) /\
    match snd h with
    | Panic _ => level rec = ErrorLevel /\ message rec = "panic recover"
    | Return =>
        (500 <= code -> level rec = ErrorLevel /\ message rec = "server error") /\
        (400 <= code < 500 -> level rec = ErrorLevel /\ message rec = "client error") /\
        (300 <= code < 400 -> level rec = WarnLevel /\ message rec = "redirect") /\
        (200 <= code < 300 -> level rec = InfoLevel /\ message rec = "success") /\
        (100 <= code < 200 -> level rec = InfoLevel /\ message rec = "informative") /\
        (code < 100 -> level rec = WarnLevel /\ message rec = "unknown status")
    end.
Proof.
  intros H Hex s h.
  destruct (Middleware_logged _ _ _ _ _ H Hex) as (_ & Hl & _).
  exists (Spec.recordOf next g w r), (Status (fst (fst h))).
  split; [exact Hl|]. split; [reflexivity|].
  subst h. rewrite (handled_unfiltered _ _ _ _ _ H).
  split; [apply recordOf_status_code|].
  pose proof (recordOf_level_message next g w r) as Hlm. cbv zeta in Hlm.
  set (rec := Spec.recordOf next g w r) in *.
  destruct (ServeHTTP next _ _) as [[ww w'] ex]. cbn [fst snd] in *.
  destruct ex as [|v]; cbn [recover classify] in Hlm.
  - set (c := Status ww) in *.
    destruct (500 <=? c)%Z eqn:E5; [|destruct (400 <=? c)%Z eqn:E4;
      [|destruct (300 <=? c)%Z eqn:E3; [|destruct (200 <=? c)%Z eqn:E2;
        [|destruct (100 <=? c)%Z eqn:E1]]]];
      inversion Hlm as [[Hlv Hmsg]]; repeat split; try reflexivity; intros; exfalso; lia.
  - inversion Hlm. auto.
Qed.

Lemma severity_by_status_witness :
  let s := Middleware None (fun _ => ([OpWriteHeader 404], Return))
                      exampleWorld newResponse bareRequest in
  exists rec, logs (world s) = [rec] /\
              field "status_code" (fields rec) = Some (VInt 404) /\
              level rec = ErrorLevel /\ message rec = "client error".
Proof.
  destruct (severity_by_status None (fun _ => ([OpWriteHeader 404], Return)) exampleWorld
              newResponse bareRequest eq_refl ltac:(vm_compute; discriminate))
    as (rec & code & Hl & Hc & Hf & Hm).
  exists rec. vm_compute in Hc. subst code.
  match type of Hm with
  | match ?e with _ => _ end =>
      let x := fresh "x" in let E := fresh "E" in
      remember e as x eqn:E in Hm; vm_compute in E; subst x
  end.
  destruct Hm as (_ & H4 & _).
  split; [exact Hl|]. split; [exact Hf|]. apply H4. lia.
Defined.

(** C7. When a filter is given and returns true, the middleware does
    nothing but call the next handler with the writer and request it
    received: the process is as before (no clock reading, no entropy
    drawn, nothing logged), the request is unchanged and is what the
    handler is served, no wrapper is created, and the writer and the way
    the call ends are those of the handler. *)
Theorem filtered_passthrough (f : Response -> http.Request -> bool) next g w r :
  f w r = true ->
  let s := Middleware (Some f) next g w r in
  s = {| world := g; response := fst (ServeHTTP next w r); request := r;
         passed := r; observer := None; exit := snd (ServeHTTP next w r) |} /\
  ticks (world s) = ticks g /\ drawn (world s) = drawn g /\
  logs (world s) = logs g /\ http.Body (passed s) = http.Body r.
Proof.
  intros H s. subst s.
  rewrite (Middleware_filtered (Some f) next g w r H). repeat split.
Qed.

Lemma filtered_passthrough_witness :
  logs (world (Middleware (Some healthcheck) okHandler exampleWorld newResponse
                          healthRequest)) = [].
Proof.
  exact (proj1 (proj2 (proj2 (proj2 (filtered_passthrough healthcheck okHandler exampleWorld
                                       newResponse healthRequest eq_refl))))).
Defined.

(** ** Request id *)

Lemma Header_Get_Set (h : Header) k v : Header_Get (Header_Set h k v) k = v.
Proof. unfold Header_Get, Header_Set. rewrite lookup_insert_eq. reflexivity. Qed.

Lemma UUID_String_length g : String.length (UUID_String (fst (uuid_New g))) = 36%nat.
Proof. reflexivity. Qed.

Lemma snapshot_keeps r :
  let r' := snd (snapshotBody r) in
  http.Header r' = http.Header r /\ http.Ctx r' = http.Ctx r /\ http.Method r' = http.Method r /\ http.Host r' = http.Host r /\
  http.RemoteAddr r' = http.RemoteAddr r /\ http.URL_Path r' = http.URL_Path r /\ http.ProtoMajor r' = http.ProtoMajor r.
Proof. unfold snapshotBody. destruct (http.Body r); cbn; repeat split. Qed.

Lemma abort_dec (ex : Exit) :
  {ex = Panic (AnyError ErrAbortHandler)} + {ex <> Panic (AnyError ErrAbortHandler)}.
Proof. destruct ex as [|[[]| |]]; (left; reflexivity) || (right; congruence). Defined.

Lemma passed_unfiltered filter next g w r :
  filtered filter w r = false -> passed (Middleware filter next g w r) = Spec.served g r.
Proof. intros H. rewrite (Middleware_unfiltered _ _ _ _ _ H). reflexivity. Qed.

Lemma world_unfiltered filter next g w r :
  filtered filter w r = false ->
  let s := Middleware filter next g w r in
  drawn (world s) = drawn (snd (resolveRequestID (snd (time_Now g)) r)) /\
  exists new, logs (world s) = (logs g ++ new)%list /\
              (new = [] \/ new = [Spec.recordOf next g w r]).
Proof.
  intros H s. subst s.
  destruct (abort_dec (snd (Spec.handled filter next g w r))) as [Ha|Hn].
  - destruct (Middleware_aborted _ _ _ _ _ H Ha) as (_ & Hl & _ & Hw).
    rewrite Hw. split; [reflexivity|]. exists []. rewrite app_nil_r. rewrite <- Hw. auto.
  - destruct (Middleware_logged _ _ _ _ _ H Hn) as (_ & Hl & _ & _ & Hw).
    rewrite Hw. split; [reflexivity|]. rewrite <- Hw. eauto.
Qed.

(** C4. For a request the filter lets through. If the request carries a
    non-empty value under the configured header (the value [Header.Get]
    reads, the first one), that value is the token, unchanged, and no
    entropy is drawn. Otherwise the token is the string
    form of a new UUID (36 characters, so not empty) made from the next 16
    bytes of entropy. Either way the token is what the handler reads
    under that header of the request it is served, it is bound as
    [request_id] in the logger that request's context carries, every
    record the middleware writes has it as [request_id], and unless the
    handler aborts there is such a record. *)
Theorem request_id_resolved filter next g w r :
  filtered filter w r = false ->
  let s := Middleware filter next g w r in
  let name := RequestIDHeader g in
  let inbound := Header_Get (http.Header r) name in
  let tok := Spec.token g r in
  (inbound <> EmptyString -> tok = inbound /\ drawn (world s) = drawn g) /\
  (inbound = EmptyString ->
     tok = UUID_String (fst (uuid_New g)) /\ String.length tok = 36%nat /\
     drawn (world s) = (drawn g + 16)%nat) /\
  Header_Get (http.Header (passed s)) name = tok /\
  field "request_id" (bound (log_Ctx (http.Ctx (passed s)))) = Some (VStr tok) /\
  Forall (fun rec => field "request_id" (fields rec) = Some (VStr tok))
         (skipn (length (logs g)) (logs (world s))) /\
  (snd (Spec.handled filter next g w r) <> Panic (AnyError ErrAbortHandler) ->
     exists rec, logs (world s) = (logs g ++ [rec])%list /\
                 field "request_id" (fields rec) = Some (VStr tok)).
Proof.
  intros H s name inbound tok.
  destruct (world_unfiltered filter next g w r H) as (Hd & new & Hl & Hnew).
  fold s in Hd, Hl.
  assert (Hres : (inbound <> EmptyString ->
                  resolveRequestID (snd (time_Now g)) r = (r, snd (time_Now g))) /\
                 (inbound = EmptyString ->
                  resolveRequestID (snd (time_Now g)) r
                  = (http.set_Header r (Header_Set (http.Header r) name (UUID_String (fst (uuid_New g)))),
                     snd (uuid_New (snd (time_Now g)))))).
  { unfold resolveRequestID. cbn [RequestIDHeader time_Now snd set_ticks].
    fold name. fold inbound. split; intros Hi.
    - destruct (String.eqb_spec inbound EmptyString); [contradiction|reflexivity].
    - rewrite Hi. reflexivity. }
  destruct Hres as [Hsome Hnone].
  split; [|split; [|split; [|split; [|split]]]].
  - intros Hi. unfold tok, Spec.token, Spec.resolved. rewrite Hd, (Hsome Hi). split; reflexivity.
  - intros Hi. unfold tok, Spec.token, Spec.resolved. rewrite Hd, (Hnone Hi).
    cbn [fst snd http.Header http.set_Header]. fold name. rewrite Header_Get_Set.
    split; [reflexivity|]. split; [apply UUID_String_length | reflexivity].
  - unfold s. rewrite (passed_unfiltered _ _ _ _ _ H). unfold Spec.served. cbv zeta.
    cbn [http.Header http.WithContext]. destruct (snapshot_keeps (fst (resolveRequestID (snd (time_Now g)) r)))
      as (Hh & _). rewrite Hh. reflexivity.
  - unfold s. rewrite (passed_unfiltered _ _ _ _ _ H). unfold Spec.served. cbv zeta.
    cbn [http.Ctx http.WithContext]. unfold requestContext, log_Ctx. cbn.
    rewrite resolve_header_name. reflexivity.
  - rewrite Hl. rewrite drop_app_length.
    destruct Hnew as [-> | ->]; [constructor|].
    constructor; [apply recordOf_request_id | constructor].
  - intros Hex. destruct (Middleware_logged _ _ _ _ _ H Hex) as (_ & Hrec & _).
    exists (Spec.recordOf next g w r). split; [exact Hrec | apply recordOf_request_id].
Qed.

Lemma request_id_resolved_witness :
  Spec.token exampleWorld tracedRequest = "abc-123" /\
  String.length (Spec.token exampleWorld bareRequest) = 36%nat.
Proof.
  split.
  - destruct (request_id_resolved None okHandler exampleWorld newResponse tracedRequest eq_refl)
      as (Hin & _).
    exact (proj1 (Hin ltac:(vm_compute; discriminate))).
  - destruct (request_id_resolved None okHandler exampleWorld newResponse bareRequest eq_refl)
      as (_ & Hout & _).
    exact (proj1 (proj2 (Hout eq_refl))).
Defined.

(** ** Body snapshot *)

(** C5. For a request the filter lets through: when it has a body, the
    middleware reads it whole for the log, which leaves the original
    reader with nothing to yield, and puts a fresh reader over the bytes
    read in its place, so the handler that reads the body of the request
    it is served receives byte-for-byte the content the original body
    yields (and no read error); when it has no body, the body stays
    absent and the snapshot returns the request as it got it, so the
    request reaches the handler with its method, host, remote address,
    path and protocol as they were, its header as the request-id step
    left it (unchanged when the id was inbound) and the logging context
    attached. *)
Theorem body_round_trip filter next g w r :
  filtered filter w r = false ->
  let s := Middleware filter next g w r in
  (forall b, http.Body r = Some b ->
     fst (fst (ReadAll (snd (ReadAll b)))) = EmptyString /\
     exists b', http.Body (passed s) = Some b' /\
                http.Body (request s) = Some b' /\
                fst (fst (ReadAll b')) = fst (fst (ReadAll b)) /\
                snd (fst (ReadAll b')) = None) /\
  (http.Body r = None ->
     http.Body (passed s) = None /\
     snapshotBody (Spec.resolved g r) = (EmptyString, Spec.resolved g r) /\
     passed s = http.WithContext (Spec.resolved g r) (http.Ctx (passed s)) /\
     http.Method (passed s) = http.Method r /\ http.Host (passed s) = http.Host r /\
     http.RemoteAddr (passed s) = http.RemoteAddr r /\ http.URL_Path (passed s) = http.URL_Path r /\
     http.ProtoMajor (passed s) = http.ProtoMajor r /\
     (Header_Get (http.Header r) (RequestIDHeader g) <> EmptyString -> http.Header (passed s) = http.Header r)).
Proof.
  intros H s. unfold s. rewrite (Middleware_unfiltered _ _ _ _ _ H). cbv zeta.
  cbn [passed request]. unfold Spec.resolved.
  set (rg := resolveRequestID (snd (time_Now g)) r).
  pose proof (resolve_Body (snd (time_Now g)) r) as Hb. fold rg in Hb.
  assert (Hkeep : http.Method (fst rg) = http.Method r /\ http.Host (fst rg) = http.Host r /\
                  http.RemoteAddr (fst rg) = http.RemoteAddr r /\ http.URL_Path (fst rg) = http.URL_Path r /\
                  http.ProtoMajor (fst rg) = http.ProtoMajor r /\
                  (Header_Get (http.Header r) (RequestIDHeader g) <> EmptyString ->
                   http.Header (fst rg) = http.Header r)).
  { unfold rg, resolveRequestID. cbn [RequestIDHeader time_Now snd set_ticks].
    destruct (String.eqb_spec (Header_Get (http.Header r) (RequestIDHeader g)) EmptyString);
      cbn; repeat split; intros; congruence. }
  split.
  - intros b Hr. rewrite Hr in Hb. unfold snapshotBody. rewrite Hb.
    split; [reflexivity|]. cbn. eexists. repeat split.
  - intros Hr. rewrite Hr in Hb. unfold snapshotBody. rewrite Hb.
    cbn [fst snd http.WithContext http.Body http.Method http.Host http.RemoteAddr http.URL_Path http.ProtoMajor http.Header http.Ctx].
    destruct Hkeep as (? & ? & ? & ? & ? & ?). repeat split; auto.
Qed.

Lemma body_round_trip_witness :
  exists b', http.Body (passed (Middleware None okHandler exampleWorld newResponse tracedRequest))
             = Some b' /\
             http.Body (request (Middleware None okHandler exampleWorld newResponse tracedRequest))
             = Some b' /\
             fst (fst (ReadAll b')) = dq "{ 'name' : 'tea', 'qty' : 2 }" /\
             snd (fst (ReadAll b')) = None.
Proof.
  exact (proj2 (proj1 (body_round_trip None okHandler exampleWorld newResponse tracedRequest
                         eq_refl) _ eq_refl)).
Defined.

(** ** Body normalisation *)

Lemma filter_nil_forallb {A} (f : A -> bool) (l : list A) :
  List.filter f l = [] <-> forallb (fun x => negb (f x)) l = true.
Proof.
  induction l as [|x l IH]; simpl; [tauto|].
  destruct (f x); simpl; [split; discriminate | exact IH].
Qed.

Lemma Unmarshal_map_decodable data :
  Json.Unmarshal_map data = None <-> Spec.decodable data = true.
Proof.
  unfold Json.Unmarshal_map, Spec.decodable, Json.Valid.
  destruct (Json.checkValid data); [split; discriminate|].
  destruct (Json.firstByte data) as [c|]; [|split; discriminate].
  rewrite andb_true_l.
  destruct c as [[] [] [] [] [] [] [] []];
    try (cbn; split; discriminate); try (cbn; split; reflexivity).
  rewrite <- filter_nil_forallb.
  destruct (List.filter _ _); split; congruence.
Qed.

(** C6, as claimed, fails in its first part: a body that is valid JSON but
    not an object is logged as it came, white space and all. *)
Lemma array_body_logged_raw :
  Json.Valid "[1, 2]" = true /\
  formatReqBody "[1, 2]" = ("[1, 2]", []) /\
  Json.Compact "[1, 2]" = ("[1,2]", None) /\
  fst (formatReqBody "[1, 2]") <> fst (Json.Compact "[1, 2]").
Proof. vm_compute. repeat split; discriminate. Qed.

(** C6, amended. [json.Unmarshal] into a string-keyed map accepts exactly
    the bodies that are valid JSON and whose top-level value is an object
    with all numbers in [float64] range, or [null]. For such a body the
    logged body is the output of [json.Compact], which cannot fail here:
    the body with white-space bytes deleted and every other byte kept in
    order, and with no white space left to delete (compacting it again
    gives it back). Every other body, valid JSON or not, is logged as the
    raw bytes. Nothing else is logged in either case. Were compaction to
    fail after a successful parse, the body would be logged empty and one
    failure record written. *)
Theorem body_normalized data :
  (Json.Unmarshal_map data = None <-> Spec.decodable data = true) /\
  (Spec.decodable data = true ->
     exists out, Json.Compact data = (out, None) /\
                 formatReqBody data = (out, []) /\
                 JsonSpec.erased data out /\
                 Json.Compact out = (out, None)) /\
  (Spec.decodable data = false -> formatReqBody data = (data, [])) /\
  (forall Unmarshal Compact res e,
     Unmarshal data = None -> Compact data = (res, Some e) ->
     formatReqBody_with Unmarshal Compact data
     = (EmptyString, [Spec.compactionFailure e])).
Proof.
  split; [apply Unmarshal_map_decodable|]. split; [|split].
  - intros Hd. apply Unmarshal_map_decodable in Hd.
    destruct (formatReqBody_decoded data Hd) as [Hc Hf].
    exists (fst (Json.Compact data)). split; [exact Hc|]. split; [exact Hf|].
    split; [|apply (JsonFacts.Compact_fixed data); exact Hc].
    pose proof (Unmarshal_map_valid data Hd) as Hv.
    rewrite (JsonFacts.checkValid_Compact data Hv). cbn [fst].
    apply JsonFacts.compact_loop_erased; [apply JsonFacts.reset_coherent|].
    apply JsonFacts.checkValid_compact_loop; [apply JsonFacts.reset_coherent | exact Hv].
  - intros Hd. apply formatReqBody_raw. intros Hn.
    apply Unmarshal_map_decodable in Hn. congruence.
  - intros U C res e HU HC. unfold formatReqBody_with. rewrite HU, HC. reflexivity.
Qed.

Lemma body_normalized_witness :
  formatReqBody (dq "{ 'name' : 'tea', 'qty' : 2 }")
    = (dq "{'name':'tea','qty':2}", []) /\
  formatReqBody "not json" = ("not json", []) /\
  formatReqBody_with (fun _ => None) (fun _ => (EmptyString, Some Json.UnexpectedEnd)) "{}"
    = (EmptyString, [Spec.compactionFailure Json.UnexpectedEnd]).
Proof.
  split; [|split].
  - destruct (proj1 (proj2 (body_normalized (dq "{ 'name' : 'tea', 'qty' : 2 }"))) eq_refl)
      as (out & Hc & Hf & _).
    vm_compute in Hc. inversion Hc; subst out. exact Hf.
  - exact (proj1 (proj2 (proj2 (body_normalized "not json"))) eq_refl).
  - exact (proj2 (proj2 (proj2 (body_normalized "{}"))) _ _ _ _ eq_refl eq_refl).
Defined.

(** ** Latency *)

(** C8, as claimed, fails: the latency is not in seconds. One second of
    elapsed time is logged as 1000. *)
Lemma one_second_logged_as_1000 :
  let s := Middleware None okHandler exampleWorld newResponse bareRequest in
  clock exampleWorld 1 - clock exampleWorld 0 = 1000000000 /\
  List.map (fun rec => field "latency" (fields rec)) (logs (world s))
    = [Some (VFloat (100000 # 100))] /\
  (100000 # 100 == 1000)%Q /\ ~ (100000 # 100 == 1)%Q.
Proof.
  cbv zeta. split; [reflexivity|]. split; [vm_compute; reflexivity|].
  split; [reflexivity|]. intros E. discriminate E.
Qed.

Lemma latencyOf_bounds d :
  0 <= d ->
  (0 <= latencyOf d)%Q /\ (latencyOf d <= d # 1000000)%Q /\
  (d # 1000000 < latencyOf d + (1 # 100))%Q.
Proof.
  intros Hd. unfold latencyOf.
  rewrite Z.quot_div_nonneg by lia.
  pose proof (Z.div_mod d 10000 ltac:(lia)) as Hdm.
  pose proof (Z.mod_pos_bound d 10000 ltac:(lia)) as Hm.
  pose proof (Z.div_pos d 10000 Hd ltac:(lia)) as Hq.
  unfold Qle, Qlt, Qplus; cbn [Qnum Qden]. repeat split; lia.
Qed.

(** C8, amended. The latency of the request record is the duration
    between the two clock readings (at entry and in the deferred
    function) in nanoseconds, integer-divided by 10^4 and then divided by
    100: the elapsed time in milliseconds cut to two decimals (a
    resolution of ten microseconds). With a monotonic clock it is not
    negative, at most the elapsed milliseconds and less than a hundredth
    below them. *)
Theorem latency_recorded filter next g w r :
  filtered filter w r = false ->
  snd (Spec.handled filter next g w r) <> Panic (AnyError ErrAbortHandler) ->
  let s := Middleware filter next g w r in
  let d := Time_Sub (clock g (S (ticks g))) (clock g (ticks g)) in
  exists rec lat,
    logs (world s) = (logs g ++ [rec])%list /\
    field "latency" (fields rec) = Some (VFloat lat) /\
    lat = Qmake (Z.quot d 10000) 100 /\
    (clock g (ticks g) <= clock g (S (ticks g)) ->
       (0 <= lat)%Q /\ (lat <= d # 1000000)%Q /\ (d # 1000000 < lat + (1 # 100))%Q).
Proof.
  intros H Hex s d.
  destruct (Middleware_logged _ _ _ _ _ H Hex) as (_ & Hl & _).
  exists (Spec.recordOf next g w r), (latencyOf d).
  split; [exact Hl|]. split; [apply recordOf_latency|]. split; [reflexivity|].
  intros Hmono. apply latencyOf_bounds.
  unfold d, Time_Sub, maxInt64, minInt64. lia.
Qed.

Lemma latency_recorded_witness :
  exists rec lat,
    logs (world (Middleware None okHandler exampleWorld newResponse bareRequest)) = [rec] /\
    field "latency" (fields rec) = Some (VFloat lat) /\ (0 <= lat)%Q.
Proof.
  destruct (latency_recorded None okHandler exampleWorld newResponse bareRequest eq_refl
              ltac:(vm_compute; discriminate)) as (rec & lat & Hl & Hf & _ & Hb).
  exists rec, lat. split; [exact Hl|]. split; [exact Hf|].
  exact (proj1 (Hb ltac:(vm_compute; discriminate))).
Defined.

(** ** Response observer *)


(** With an informational first status the wrapper is not transparent.
    A handler that sends early hints ([103]) and then [404]: through the
    wrapper the [404] is swallowed, the server sends [200] and the record
    says [103]; on the writer itself the final status is [404]. *)
Lemma informational_status_hides_final_status :
  let next : Handler := fun _ => ([OpWriteHeader 103; OpWriteHeader 404], Return) in
  let s := Middleware None next exampleWorld newResponse bareRequest in
  sentStatus (response s) = 200 /\
  sentStatus (fst (ServeHTTP next newResponse (passed s))) = 404 /\
  List.map (fun rec => field "status_code" (fields rec)) (logs (world s))
    = [Some (VInt 103)].
Proof. vm_compute. repeat split. Qed.



(** C10. When the handler panics with a value other than
    [http.ErrAbortHandler], the forced 500 goes to the writer the
    middleware was given: the wrapper is left as the handler left it, and
    the record's [status_code] is the status the wrapper had recorded. In
    particular, a handler that wrote nothing before panicking is logged
    with [status_code] 0 while the client, on a writer that had sent
    nothing, gets 500. *)
Theorem panic_status_not_observed filter next g w r v :
  filtered filter w r = false ->
  snd (Spec.handled filter next g w r) = Panic v ->
  v <> AnyError ErrAbortHandler ->
  let s := Middleware filter next g w r in
  let h := Spec.handled filter next g w r in
  response s = fst (Response_WriteHeader StatusInternalServerError (snd (fst h))) /\
  observer s = Some (fst (fst h)) /\
  (exists rec, logs (world s) = (logs g ++ [rec])%list /\
               field "status_code" (fields rec) = Some (VInt (Status (fst (fst h))))) /\
  (fst (next (passed s)) = [] -> wroteHeader w = false ->
     Status (fst (fst h)) = 0 /\ sentStatus (response s) = StatusInternalServerError).
Proof.
  intros H Hex Hv s h.
  assert (Hna : snd (Spec.handled filter next g w r) <> Panic (AnyError ErrAbortHandler))
    by (rewrite Hex; congruence).
  destruct (Middleware_logged _ _ _ _ _ H Hna) as (_ & Hl & Hr & Ho & _).
  rewrite Hex in Hr. fold s in Hl, Hr, Ho. fold h in Hr, Ho.
  split; [exact Hr|]. split; [exact Ho|]. split.
  - exists (Spec.recordOf next g w r). split; [exact Hl|].
    unfold h. rewrite (handled_unfiltered _ _ _ _ _ H). apply recordOf_status_code.
  - intros Hops Hw. rewrite Hr. unfold h, Spec.handled, ServeHTTP. fold s. rewrite Hops.
    cbn [run fst snd]. split; [reflexivity|].
    cbn [WriteHeader Response_writer]. unfold Response_WriteHeader. rewrite Hw. reflexivity.
Qed.

Lemma panic_status_not_observed_witness :
  let s := Middleware None panicHandler exampleWorld newResponse bareRequest in
  (exists rec, logs (world s) = [rec] /\ field "status_code" (fields rec) = Some (VInt 0)) /\
  sentStatus (response s) = 500.
Proof.
  destruct (panic_status_not_observed None panicHandler exampleWorld newResponse bareRequest
              (AnyString "boom") eq_refl eq_refl ltac:(discriminate))
    as (_ & _ & Hrec & Hd).
  split; [exact Hrec | exact (proj2 (Hd eq_refl eq_refl))].
Defined.

(** * Further properties of [chilog.go] *)

(** ** Shape of the request record *)

(** X2. The request record describes the request as it came in: its
    [remote_ip], [host], [method] and [path] are the request's remote
    address, host, method and URL path, and its [body] is [formatReqBody]
    of the bytes the request's body yields (of no bytes when the body is
    nil), also when reading the body ended in an error. *)
Theorem request_record_describes_request filter next g w r :
  filtered filter w r = false ->
  snd (Spec.handled filter next g w r) <> Panic (AnyError ErrAbortHandler) ->
  exists rec,
    logs (world (Middleware filter next g w r)) = (logs g ++ [rec])%list /\
    field "remote_ip" (fields rec) = Some (VStr (http.RemoteAddr r)) /\
    field "host" (fields rec) = Some (VStr (http.Host r)) /\
    field "method" (fields rec) = Some (VStr (http.Method r)) /\
    field "path" (fields rec) = Some (VStr (http.URL_Path r)) /\
    field "body" (fields rec) = Some (VStr (fst (formatReqBody (Shape.bodyBytes r)))).
Proof.
  intros H Hex.
  destruct (Middleware_logged _ _ _ _ _ H Hex) as (_ & Hl & _).
  exists (Spec.recordOf next g w r). split; [exact Hl|].
  unfold Spec.recordOf, Spec.requestRecord. cbv zeta.
  set (rg := resolveRequestID (snd (time_Now g)) r).
  assert (Hkeep : http.Method (fst rg) = http.Method r /\ http.Host (fst rg) = http.Host r /\
                  http.RemoteAddr (fst rg) = http.RemoteAddr r /\
                  http.URL_Path (fst rg) = http.URL_Path r).
  { unfold rg, resolveRequestID. destruct (String.eqb _ _); cbn; auto. }
  destruct Hkeep as (Hm' & Hh' & Ha' & Hp').
  assert (Hbuf : fst (snapshotBody (fst rg)) = Shape.bodyBytes r).
  { unfold snapshotBody, Shape.bodyBytes. unfold rg. rewrite resolve_Body.
    destruct (http.Body r); reflexivity. }
  pose proof (snapshot_keeps (fst rg)) as Hk. cbv zeta in Hk.
  destruct Hk as (_ & _ & Hm & Hh & Ha & Hp & _).
  destruct (snapshotBody (fst rg)) as [buf r2]. cbn [fst snd] in *.
  destruct (recover _); cbn; rewrite Hm, Hh, Ha, Hp, Hm', Hh', Ha', Hp', Hbuf;
    repeat split.
Qed.

Lemma request_record_describes_request_witness :
  exists rec,
    logs (world (Middleware None okHandler exampleWorld newResponse tracedRequest)) = [rec] /\
    field "path" (fields rec) = Some (VStr "/items") /\
    field "body" (fields rec) = Some (VStr (dq "{'name':'tea','qty':2}")).
Proof.
  destruct (request_record_describes_request None okHandler exampleWorld newResponse
              tracedRequest eq_refl ltac:(vm_compute; discriminate))
    as (rec & Hl & _ & _ & _ & Hp & Hb).
  exists rec. split; [exact Hl|]. split; [exact Hp|].
  rewrite Hb. vm_compute. reflexivity.
Defined.

(** ** Request id: stability, frame, format *)

Lemma resolve_cases g r :
  (Header_Get (http.Header r) (RequestIDHeader g) <> EmptyString /\
   resolveRequestID g r = (r, g)) \/
  (Header_Get (http.Header r) (RequestIDHeader g) = EmptyString /\
   resolveRequestID g r
   = (http.set_Header r (Header_Set (http.Header r) (RequestIDHeader g)
                                    (UUID_String (fst (uuid_New g)))),
      snd (uuid_New g))).
Proof.
  unfold resolveRequestID.
  destruct (String.eqb_spec (Header_Get (http.Header r) (RequestIDHeader g)) EmptyString);
    [right | left]; auto.
Qed.

Lemma UUID_String_not_empty g : UUID_String (fst (uuid_New g)) <> EmptyString.
Proof.
  intros E. apply (f_equal String.length) in E.
  rewrite UUID_String_length in E. discriminate E.
Qed.

Lemma resolved_has_id g r :
  Header_Get (http.Header (fst (resolveRequestID g r))) (RequestIDHeader g) <> EmptyString.
Proof.
  destruct (resolve_cases g r) as [[Hi ->] | [Hi ->]]; cbn [fst]; [exact Hi|].
  cbn [http.Header http.set_Header]. rewrite Header_Get_Set. apply UUID_String_not_empty.
Qed.

Lemma passed_carries_token filter next g w r :
  filtered filter w r = false ->
  Header_Get (http.Header (passed (Middleware filter next g w r))) (RequestIDHeader g)
  = Spec.token g r.
Proof.
  intros H. rewrite (passed_unfiltered _ _ _ _ _ H).
  unfold Spec.served, Spec.token, Spec.resolved. cbv zeta. cbn [http.Header http.WithContext].
  destruct (snapshot_keeps (fst (resolveRequestID (snd (time_Now g)) r))) as (Hh & _).
  rewrite Hh. reflexivity.
Qed.

(** X3. The request id step is idempotent: the request the handler is
    served already carries its id, so resolving it again, in any later
    state of the process with the same header name, changes neither the
    request nor the entropy consumed, and yields the same token. *)
Theorem request_id_stable filter next g w r g' :
  filtered filter w r = false ->
  RequestIDHeader g' = RequestIDHeader g ->
  let r' := passed (Middleware filter next g w r) in
  resolveRequestID g' r' = (r', g') /\
  Header_Get (http.Header (fst (resolveRequestID g' r'))) (RequestIDHeader g')
  = Spec.token g r.
Proof.
  intros H Hname r'. unfold r'. rewrite (passed_unfiltered _ _ _ _ _ H).
  assert (Hid : Header_Get (http.Header (Spec.served g r)) (RequestIDHeader g')
                = Spec.token g r).
  { unfold Spec.served, Spec.token, Spec.resolved. cbv zeta. cbn [http.Header http.WithContext].
    destruct (snapshot_keeps (fst (resolveRequestID (snd (time_Now g)) r))) as (Hh & _).
    rewrite Hh, Hname. reflexivity. }
  assert (Hne : Spec.token g r <> EmptyString).
  { unfold Spec.token, Spec.resolved.
    exact (resolved_has_id (snd (time_Now g)) r). }
  destruct (resolve_cases g' (Spec.served g r)) as [[Hi E] | [Hi E]].
  - rewrite E. split; [reflexivity | exact Hid].
  - congruence.
Qed.

Lemma request_id_stable_witness :
  resolveRequestID exampleWorld
    (passed (Middleware None okHandler exampleWorld newResponse bareRequest))
  = (passed (Middleware None okHandler exampleWorld newResponse bareRequest), exampleWorld).
Proof.
  exact (proj1 (request_id_stable None okHandler exampleWorld newResponse bareRequest
                  exampleWorld eq_refl eq_refl)).
Defined.

(** X4. The middleware touches nothing of the request but the request id
    header, the body reader and the context: the handler is served the
    same method, host, remote address, path and protocol version, and
    every header stored under another key is as it was. Under the
    request id key, an inbound id leaves the whole header map unchanged;
    without one, the key holds the new token as its only value, whatever
    values (empty first) it held before. *)
Theorem request_frame filter next g w r :
  filtered filter w r = false ->
  let r' := passed (Middleware filter next g w r) in
  let key := CanonicalMIMEHeaderKey (RequestIDHeader g) in
  http.Method r' = http.Method r /\ http.Host r' = http.Host r /\
  http.RemoteAddr r' = http.RemoteAddr r /\ http.URL_Path r' = http.URL_Path r /\
  http.ProtoMajor r' = http.ProtoMajor r /\
  (forall k, k <> key -> http.Header r' !! k = http.Header r !! k) /\
  (Header_Get (http.Header r) (RequestIDHeader g) <> EmptyString ->
     http.Header r' = http.Header r) /\
  (Header_Get (http.Header r) (RequestIDHeader g) = EmptyString ->
     http.Header r' !! key = Some [Spec.token g r]).
Proof.
  intros H r' key. unfold r'. rewrite (passed_unfiltered _ _ _ _ _ H).
  unfold Spec.served, Spec.token, Spec.resolved. cbv zeta.
  set (rg := resolveRequestID (snd (time_Now g)) r).
  destruct (snapshot_keeps (fst rg)) as (Hh & _ & Hm & Hho & Ha & Hp & Hpm).
  cbn [http.Method http.Host http.RemoteAddr http.URL_Path http.ProtoMajor http.Header
       http.WithContext].
  rewrite Hh, Hm, Hho, Ha, Hp, Hpm.
  destruct (resolve_cases (snd (time_Now g)) r) as [[Hi E] | [Hi E]];
    fold rg in E; rewrite E; cbn [fst http.Method http.Host http.RemoteAddr http.URL_Path
                                  http.ProtoMajor http.Header http.set_Header];
    cbn [RequestIDHeader time_Now snd set_ticks] in Hi |- *.
  - repeat split; auto. intros Hc. contradiction.
  - repeat split; auto.
    + intros k Hk. unfold Header_Set. apply lookup_insert_ne. auto.
    + intros Hc. contradiction.
    + intros _. unfold Header_Set, Header_Get. fold key.
      rewrite !lookup_insert_eq. reflexivity.
Qed.

Lemma request_frame_witness :
  http.Header (passed (Middleware None okHandler exampleWorld newResponse tracedRequest))
  = http.Header tracedRequest.
Proof.
  destruct (request_frame None okHandler exampleWorld newResponse tracedRequest eq_refl)
    as (_ & _ & _ & _ & _ & _ & Hin & _).
  apply Hin. vm_compute. discriminate.
Defined.

Lemma hex_high_nibble c : Shape.isLowerHex (hexdigit (N.shiftr (code c) 4)) = true.
Proof. destruct c as [[] [] [] [] [] [] [] []]; vm_compute; reflexivity. Qed.

Lemma hex_low_nibble c : Shape.isLowerHex (hexdigit (N.land (code c) 15)) = true.
Proof. destruct c as [[] [] [] [] [] [] [] []]; vm_compute; reflexivity. Qed.

Lemma hex_version c :
  hexdigit (N.shiftr (code (ascii_of_N (N.lor (N.land (code c) 15) 64))) 4) = "4"%char.
Proof. destruct c as [[] [] [] [] [] [] [] []]; vm_compute; reflexivity. Qed.

Lemma hex_variant c :
  let h := hexdigit (N.shiftr (code (ascii_of_N (N.lor (N.land (code c) 63) 128))) 4) in
  Ascii.eqb h "8" || Ascii.eqb h "9" || Ascii.eqb h "a" || Ascii.eqb h "b" = true.
Proof. destruct c as [[] [] [] [] [] [] [] []]; vm_compute; reflexivity. Qed.

Lemma uuid_New_String_valid g : Shape.isUUIDv4 (UUID_String (fst (uuid_New g))) = true.
Proof.
  unfold uuid_New. cbn [fst]. cbn [seq List.map].
  generalize (rander g (drawn g + 0)) (rander g (drawn g + 1)) (rander g (drawn g + 2))
             (rander g (drawn g + 3)) (rander g (drawn g + 4)) (rander g (drawn g + 5))
             (rander g (drawn g + 6)) (rander g (drawn g + 7)) (rander g (drawn g + 8))
             (rander g (drawn g + 9)) (rander g (drawn g + 10)) (rander g (drawn g + 11))
             (rander g (drawn g + 12)) (rander g (drawn g + 13)) (rander g (drawn g + 14))
             (rander g (drawn g + 15)).
  intros b0 b1 b2 b3 b4 b5 b6 b7 b8 b9 b10 b11 b12 b13 b14 b15.
  unfold Shape.isUUIDv4, UUID_String.
  cbn [alter list_alter firstn skipn hex_Encode].
  cbv [String.append].
  cbn [Shape.isUUIDv4_from Nat.eqb orb].
  pose proof (hex_variant b8) as Hv. cbv zeta in Hv.
  rewrite hex_version, Hv, !hex_high_nibble, !hex_low_nibble. reflexivity.
Qed.

(** X5. A request that comes without a request id is given a well-formed
    one: the token is the canonical text of a version 4 UUID (36
    characters, dashes at 8, 13, 18, 23, version digit 4, variant digit
    8, 9, a or b, lower-case hexadecimal otherwise). *)
Theorem generated_token_is_uuid filter next g w r :
  filtered filter w r = false ->
  Header_Get (http.Header r) (RequestIDHeader g) = EmptyString ->
  Shape.isUUIDv4 (Spec.token g r) = true /\
  Shape.isUUIDv4
    (Header_Get (http.Header (passed (Middleware filter next g w r))) (RequestIDHeader g))
  = true.
Proof.
  intros H Hi.
  assert (Htok : Spec.token g r = UUID_String (fst (uuid_New g))).
  { unfold Spec.token, Spec.resolved.
    destruct (resolve_cases (snd (time_Now g)) r) as [[Hn _] | [_ E]];
      [contradiction|].
    rewrite E. cbn [fst http.Header http.set_Header]. apply Header_Get_Set. }
  rewrite (passed_carries_token filter next g w r H), Htok. split; apply uuid_New_String_valid.
Qed.

Lemma generated_token_is_uuid_witness :
  Shape.isUUIDv4 (Spec.token exampleWorld bareRequest) = true.
Proof.
  exact (proj1 (generated_token_is_uuid None okHandler exampleWorld newResponse bareRequest
                  eq_refl eq_refl)).
Defined.

(** ** The response *)





(** X7. When the handler returns and the first thing it did to its
    writer was to settle the final status line (a [WriteHeader] with a
    code that is not informational, or a [Write]), on a writer on which
    no final status had been sent, the [status_code] of the request
    record is the status the client receives. *)
Theorem logged_status_is_sent_status filter next g w r :
  filtered filter w r = false ->
  snd (Spec.handled filter next g w r) = Return ->
  Spec.settlesStatus (fst (next (passed (Middleware filter next g w r)))) = true ->
  wroteHeader w = false ->
  let s := Middleware filter next g w r in
  wroteHeader (response s) = true /\
  exists rec, logs (world s) = (logs g ++ [rec])%list /\
              field "status_code" (fields rec) = Some (VInt (sentStatus (response s))).
Proof.
  intros H Hret Hops Hw s.
  assert (Hna : snd (Spec.handled filter next g w r) <> Panic (AnyError ErrAbortHandler))
    by (rewrite Hret; discriminate).
  destruct (Middleware_logged _ _ _ _ _ H Hna) as (_ & Hl & Hresp & _).
  fold s in Hl, Hresp. rewrite Hret in Hresp.
  pose proof (recordOf_status_code next g w r) as Hsc. cbv zeta in Hsc.
  rewrite <- (handled_unfiltered _ _ _ _ _ H) in Hsc.
  unfold Spec.handled, ServeHTTP in Hret, Hresp, Hsc. fold s in Hret, Hresp, Hsc, Hops.
  destruct (run_settles (fst (next (passed s))) (snd (next (passed s))) (http.ProtoMajor r) w
              Hops Hw ltac:(rewrite Hret; discriminate)) as (Hwh & Hsent).
  rewrite Hresp. split; [exact Hwh|].
  exists (Spec.recordOf next g w r). split; [exact Hl|].
  rewrite Hsc, Hsent. rewrite run_status_first. reflexivity.
Qed.

Lemma logged_status_is_sent_status_witness :
  exists rec,
    logs (world (Middleware None (fun _ => ([OpWrite "hello"], Return)) exampleWorld
                            newResponse bareRequest)) = [rec] /\
    field "status_code" (fields rec) = Some (VInt 200).
Proof.
  destruct (logged_status_is_sent_status None (fun _ => ([OpWrite "hello"], Return))
              exampleWorld newResponse bareRequest eq_refl eq_refl
              eq_refl eq_refl) as (_ & rec & Hl & Hf).
  exists rec. split; [exact Hl | exact Hf].
Defined.

(** ** Latency *)

(** X8. The latency grows with the second clock reading: for the same
    start, a later reading never gives a smaller latency, and readings
    less than ten microseconds after the start give latency zero. *)
Theorem latency_monotone (start t1 t2 : Z) :
  t1 <= t2 ->
  (latencyOf (Time_Sub t1 start) <= latencyOf (Time_Sub t2 start))%Q /\
  (start <= t1 < start + 10000 -> (latencyOf (Time_Sub t1 start) == 0)%Q).
Proof.
  intros Hle. unfold latencyOf, Qle, Qeq. cbn [Qnum Qden]. split.
  - assert (Hq : Z.quot (Time_Sub t1 start) 10000 <= Z.quot (Time_Sub t2 start) 10000).
    { apply Z.quot_le_mono; [lia|]. unfold Time_Sub, maxInt64, minInt64. lia. }
    lia.
  - intros Hr. assert (Hd : Time_Sub t1 start = t1 - start)
      by (unfold Time_Sub, maxInt64, minInt64; lia).
    rewrite Hd, Z.quot_small by lia. reflexivity.
Qed.

Lemma latency_monotone_witness :
  (latencyOf (Time_Sub 5000 0) <= latencyOf (Time_Sub 2500000 0))%Q /\
  (latencyOf (Time_Sub 5000 0) == 0)%Q.
Proof.
  destruct (latency_monotone 0 5000 2500000 ltac:(lia)) as [H1 H2].
  split; [exact H1 | apply H2; lia].
Defined.

(** ** The logged body *)

Module CompactFacts.
Import Json JsonSpec JsonFacts Shape.

Lemma erased_refl s : erased s s.
Proof. induction s; constructor; auto. Qed.

Lemma erased_length src dst : erased src dst -> (String.length dst <= String.length src)%nat.
Proof. induction 1; cbn; lia. Qed.

Lemma erased_no_space src dst :
  erased src dst -> forallb_string (fun c => negb (isSpace c)) src = true -> dst = src.
Proof.
  induction 1 as [|c src dst He IH|c src dst Hc He IH]; cbn; intros Hn; [reflexivity| |].
  - apply andb_prop in Hn. destruct Hn as [_ Hn]. rewrite (IH Hn). reflexivity.
  - rewrite Hc in Hn. discriminate Hn.
Qed.

Lemma firstByte_erased src dst : erased src dst -> firstByte dst = firstByte src.
Proof.
  induction 1 as [|c src dst He IH|c src dst Hc He IH]; cbn; [reflexivity| |].
  - destruct (isSpace c); auto.
  - rewrite Hc. exact IH.
Qed.

(** What [compact] finishes without error, [checkValid] accepts. *)
Lemma compact_loop_checkValid data : forall s,
  coherent s -> snd (eof (fst (compact_loop s data))) <> scanError ->
  checkValid_from s data = None.
Proof.
  induction data as [|c rest IH]; intros s Hc Hok; cbn [checkValid_from compact_loop] in *.
  - cbn [fst] in Hok. destruct (eof s) as [s' v]. cbn [snd] in Hok.
    destruct v; congruence.
  - pose proof (scan_coherent s c Hc) as Hc'.
    pose proof (scan_error_has_err s c Hc) as He.
    destruct (scan s c) as [s' v]. cbn [fst snd] in *.
    destruct v; cbn in Hok;
      try (apply IH; [exact Hc'|]; destruct (compact_loop s' rest); exact Hok).
    exfalso. apply Hok, eof_err. auto.
Qed.

Lemma Compact_Valid data out : Compact data = (out, None) -> checkValid data = None.
Proof.
  unfold Compact, checkValid. intros H.
  apply compact_loop_checkValid; [apply reset_coherent|].
  destruct (compact_loop reset data) as [s o]. cbn [fst].
  destruct (eof s) as [s' v] eqn:Ee. cbn [snd].
  intros ->. pose proof (eof_error_has_err s) as Hn. rewrite Ee in Hn. cbn in Hn.
  inversion H. apply Hn; auto.
Qed.

(** After skipped white space no byte continues a literal. *)
Lemma scan_after_space_not_literal t c :
  dropped (snd (scan t " ")) = true -> err (fst (scan t " ")) = None ->
  snd (scan (fst (scan t " ")) c) <> scanContinue.
Proof.
  destruct t as [st stk e et]; destruct st; destruct stk as [|p stk];
    match goal with
    | |- context [scan ?t " "] =>
        let r := fresh "r" in let E := fresh "E" in
        remember (scan t " ") as r eqn:E; vm_compute in E; subst r
    end;
    cbn [fst snd err];
    try (intros H; vm_compute in H; discriminate H);
    try (intros _ H; discriminate H).
  all: intros _ _; scan_unfold; cbn [step stack err endTop fst snd tl].
  all: repeat (break_match; cbn [step stack err endTop fst snd tl] in * ).
  all: discriminate.
Qed.

Lemma literals_from_step s cur c rest :
  literals_from s cur (String c rest)
  = match snd (scan s c) with
    | scanBeginLiteral =>
        (closed cur ++ literals_from (fst (scan s c)) (Some (String c EmptyString)) rest)%list
    | scanContinue =>
        literals_from (fst (scan s c))
          (option_map (fun t => t ++ String c EmptyString) cur) rest
    | scanError => closed cur
    | _ => (closed cur ++ literals_from (fst (scan s c)) None rest)%list
    end.
Proof.
  cbn [literals_from]. destruct (scan s c) as [s' v]. cbn [fst snd].
  destruct v; reflexivity.
Qed.

Lemma compact_loop_step s c rest :
  compact_loop s (String c rest)
  = if dropped (snd (scan s c)) then
      match snd (scan s c) with
      | scanError => (fst (scan s c), String c rest)
      | _ => compact_loop (fst (scan s c)) rest
      end
    else (fst (compact_loop (fst (scan s c)) rest),
          String c (snd (compact_loop (fst (scan s c)) rest))).
Proof.
  cbn [compact_loop]. destruct (scan s c) as [s' v]. cbn [fst snd]. unfold dropped.
  destruct (opcode_iota scanSkipSpace <=? opcode_iota v)%Z; [reflexivity|].
  destruct (compact_loop s' rest); reflexivity.
Qed.

(** Compaction keeps the literal tokens. *)
Lemma literals_compact_loop data : forall s t cur,
  coherent s -> snd (eof (fst (compact_loop s data))) <> scanError ->
  (s = t ->
   literals_from t cur (snd (compact_loop s data)) = literals_from s cur data) /\
  (dropped (snd (scan t " ")) = true -> s = fst (scan t " ") ->
   literals_from t cur (snd (compact_loop s data))
   = (closed cur ++ literals_from s None data)%list).
Proof.
  induction data as [|c rest IH]; intros s t cur Hc Hok.
  - cbn. split; intros; subst; [reflexivity|]. rewrite app_nil_r.
    destruct cur; reflexivity.
  - pose proof (compact_ok_err_none _ _ Hok) as Hs.
    pose proof (scan_coherent s c Hc) as Hc'.
    pose proof (scan_error_has_err s c Hc) as He.
    pose proof (scan_space_uniform s c Hc) as Hu.
    rewrite compact_loop_step in Hok |- *.
    rewrite (literals_from_step s).
    destruct (scan s c) as [s' v] eqn:Escan. cbn [fst snd] in *.
    destruct (dropped v) eqn:Ed.
    + assert (Hv : v = scanSkipSpace \/ v = scanEnd).
      { destruct v; try discriminate Ed; auto.
        exfalso. apply Hok, eof_err. cbn [fst]. auto. }
      assert (Hok' : snd (eof (fst (compact_loop s' rest))) <> scanError)
        by (destruct Hv as [-> | ->]; exact Hok).
      assert (Hout : match v with
                     | scanError => (s', String c rest)
                     | _ => compact_loop s' rest
                     end = compact_loop s' rest)
        by (destruct Hv as [-> | ->]; reflexivity).
      rewrite Hout.
      assert (Hlit : match v with
                     | scanBeginLiteral =>
                         (closed cur ++ literals_from s' (Some (String c EmptyString)) rest)%list
                     | scanContinue =>
                         literals_from s' (option_map (fun t => t ++ String c EmptyString) cur) rest
                     | scanError => closed cur
                     | _ => (closed cur ++ literals_from s' None rest)%list
                     end = (closed cur ++ literals_from s' None rest)%list)
        by (destruct Hv as [-> | ->]; reflexivity).
      pose proof (compact_ok_err_none _ _ Hok') as Hs'.
      specialize (Hu eq_refl Hs').
      split.
      * intros <-. rewrite Hlit.
        apply (proj2 (IH s' s cur Hc' Hok')); rewrite Hu; auto.
      * intros Hd ->.
        assert (Hsame : s' = fst (scan t " ")).
        { apply (f_equal fst) in Hu. cbn [fst] in Hu. rewrite <- Hu.
          apply scan_space_twice; auto. }
        assert (Hnone : match v with
                        | scanBeginLiteral =>
                            (closed None ++ literals_from s' (Some (String c EmptyString)) rest)%list
                        | scanContinue =>
                            literals_from s' (option_map (fun t => t ++ String c EmptyString) None) rest
                        | scanError => closed None
                        | _ => (closed None ++ literals_from s' None rest)%list
                        end = literals_from s' None rest)
          by (destruct Hv as [-> | ->]; reflexivity).
        rewrite (literals_from_step (fst (scan t " "))), Escan. cbn [fst snd].
        rewrite Hnone.
        apply (proj2 (IH s' t cur Hc' Hok')); auto.
    + assert (Hok' : snd (eof (fst (compact_loop s' rest))) <> scanError) by exact Hok.
      cbn [snd].
      destruct (IH s' s' cur Hc' Hok') as [_ _].
      split.
      * intros <-. rewrite (literals_from_step s), Escan. cbn [fst snd].
        destruct v; try reflexivity;
          try (f_equal; apply (proj1 (IH s' s' _ Hc' Hok')); reflexivity);
          apply (proj1 (IH s' s' _ Hc' Hok')); reflexivity.
      * intros Hd ->.
        assert (Ht : scan t c = (s', v)).
        { rewrite (scan_after_space t c); auto. rewrite Escan. exact Ed. }
        pose proof (scan_after_space_not_literal t c Hd Hs) as Hnc.
        rewrite Escan in Hnc. cbn [snd] in Hnc.
        rewrite (literals_from_step t), Ht. cbn [fst snd].
        rewrite (literals_from_step (fst (scan t " "))), Escan. cbn [fst snd].
        destruct v; try congruence; try discriminate Ed; cbn [closed app];
          f_equal; apply (proj1 (IH s' s' _ Hc' Hok')); reflexivity.
Qed.

Lemma literals_Compact data out :
  Compact data = (out, None) -> literals out = literals data.
Proof.
  unfold Compact, literals. intros H.
  destruct (compact_loop reset data) as [s o] eqn:El.
  destruct (eof s) as [s' v] eqn:Ee.
  assert (Hok : snd (eof (fst (compact_loop reset data))) <> scanError).
  { rewrite El; cbn [fst]; rewrite Ee; cbn [snd].
    intros ->. pose proof (eof_error_has_err s) as Hn. rewrite Ee in Hn.
    cbn in Hn. inversion H. apply Hn; auto. }
  assert (Ho : o = out).
  { destruct v; inversion H; auto. exfalso. apply Hok.
    rewrite El; cbn [fst]; rewrite Ee; reflexivity. }
  subst o.
  pose proof (proj1 (literals_compact_loop data reset reset None reset_coherent Hok) eq_refl)
    as Hl.
  rewrite El in Hl. exact Hl.
Qed.

End CompactFacts.

(** What [json.Unmarshal] accepts, it accepts again after [json.Compact]. *)
Lemma Unmarshal_map_Compact data out :
  Json.Unmarshal_map data = None -> Json.Compact data = (out, None) ->
  Json.Unmarshal_map out = None.
Proof.
  intros Hu Hc.
  pose proof (JsonFacts.Compact_fixed data out Hc) as Hfix.
  pose proof (CompactFacts.Compact_Valid out out Hfix) as Hv.
  pose proof (CompactFacts.literals_Compact data out Hc) as Hl.
  assert (He : JsonSpec.erased data out).
  { pose proof (Unmarshal_map_valid data Hu) as Hvd.
    rewrite (JsonFacts.checkValid_Compact data Hvd) in Hc. inversion Hc.
    apply JsonFacts.compact_loop_erased; [apply JsonFacts.reset_coherent|].
    apply JsonFacts.checkValid_compact_loop; [apply JsonFacts.reset_coherent | exact Hvd]. }
  pose proof (CompactFacts.firstByte_erased data out He) as Hf.
  unfold Json.Unmarshal_map in *. rewrite Hv, Hf, Hl.
  destruct (Json.checkValid data); [discriminate|]. exact Hu.
Qed.

(** X9. The logged body is the body with nothing changed but white-space
    bytes taken out: every other byte is kept, in order. So it is never
    longer than the body, and a body without any white-space byte (blank,
    tab, line feed, carriage return) is logged verbatim, JSON or not. *)
Theorem logged_body_only_loses_space data :
  JsonSpec.erased data (fst (formatReqBody data)) /\
  (String.length (fst (formatReqBody data)) <= String.length data)%nat /\
  (forallb_string (fun c => negb (Json.isSpace c)) data = true ->
   fst (formatReqBody data) = data).
Proof.
  assert (He : JsonSpec.erased data (fst (formatReqBody data))).
  { destruct (Json.Unmarshal_map data) eqn:Eu.
    - rewrite formatReqBody_raw by congruence. apply CompactFacts.erased_refl.
    - destruct (formatReqBody_decoded data Eu) as [Hc ->]. cbn [fst].
      pose proof (Unmarshal_map_valid data Eu) as Hv.
      rewrite (JsonFacts.checkValid_Compact data Hv). cbn [fst].
      apply JsonFacts.compact_loop_erased; [apply JsonFacts.reset_coherent|].
      apply JsonFacts.checkValid_compact_loop; [apply JsonFacts.reset_coherent | exact Hv]. }
  split; [exact He|]. split.
  - apply CompactFacts.erased_length, He.
  - apply CompactFacts.erased_no_space, He.
Qed.

Lemma logged_body_only_loses_space_witness :
  fst (formatReqBody (dq "{'a':[1,2]}")) = dq "{'a':[1,2]}".
Proof.
  exact (proj2 (proj2 (logged_body_only_loses_space (dq "{'a':[1,2]}"))) eq_refl).
Defined.

(** X10. [formatReqBody] is idempotent: formatting a logged body again
    gives the same text and logs nothing. When the body was compacted
    (it decoded into a map), the logged body is valid JSON and decodes
    into a map again. *)
Theorem formatReqBody_idempotent data :
  formatReqBody (fst (formatReqBody data)) = (fst (formatReqBody data), []) /\
  (Json.Unmarshal_map data = None ->
   Json.Valid (fst (formatReqBody data)) = true /\
   Json.Unmarshal_map (fst (formatReqBody data)) = None).
Proof.
  destruct (Json.Unmarshal_map data) eqn:Eu.
  - rewrite (formatReqBody_raw data) by congruence. cbn [fst].
    split; [|discriminate]. apply formatReqBody_raw. congruence.
  - destruct (formatReqBody_decoded data Eu) as [Hc Hf]. rewrite Hf. cbn [fst].
    set (out := fst (Json.Compact data)) in *.
    pose proof (Unmarshal_map_Compact data out Eu Hc) as Hu'.
    pose proof (JsonFacts.Compact_fixed data out Hc) as Hfix.
    destruct (formatReqBody_decoded out Hu') as [_ Hf'].
    rewrite Hfix in Hf'. cbn [fst] in Hf'.
    split; [exact Hf'|]. intros _. split; [|exact Hu'].
    unfold Json.Valid. rewrite (Unmarshal_map_valid out Hu'). reflexivity.
Qed.

Lemma formatReqBody_idempotent_witness :
  Json.Valid (fst (formatReqBody (dq "{ 'name' : 'tea', 'qty' : 2 }"))) = true.
Proof.
  exact (proj1 (proj2 (formatReqBody_idempotent (dq "{ 'name' : 'tea', 'qty' : 2 }"))
                  eq_refl)).
Defined.
